(** * tekscope.parse: decoders for raw oscilloscope responses

    A shallow embedding of [src/tekscope/parse.py] and of the parts of the
    Python runtime and of NumPy that its three functions call:
    [bytes.split], [int], [float], [numpy.frombuffer] and [numpy.array].

    Byte strings are [list byte]; Python integers are [Z]; Python floats are
    binary64 values, [spec_float] with [prec = 53] and [emax = 1024]; a call
    that raises is [inl] of the exception, a call that returns is [inr] of the
    value.

    The runtime is CPython with NumPy on an LP64 platform (a C [long] of 64
    bits). [int()] is read with the interpreter's limit on the digits of a
    literal as a parameter, [max_str_digits], and [numpy.array] with the
    NumPy in use as a parameter, [np]. The array
    dtypes are the signed integer dtypes; a decoded array is the list of its
    elements. *)

From Stdlib Require Import String.
From Stdlib Require Import ZArith List Lia Bool QArith Qabs.
From Stdlib Require Import Strings.Byte Floats.SpecFloat.
Import ListNotations.

Local Open Scope Z_scope.

(** ** Byte strings *)

Definition bytes := list byte.

Definition byte_val (b : byte) : Z := Z.of_N (Byte.to_N b).

Definition byte_of_Z (z : Z) : byte :=
  match Byte.of_N (Z.to_N (z mod 256)) with
  | Some b => b
  | None => x00
  end.

(** A bytes literal, written as a string. *)
Definition b_ (s : string) : bytes := list_byte_of_string s.
Arguments b_ s%_string_scope.

(** ** Exceptions and results *)

Inductive exception :=
| ValueError_buffer_size
    (* numpy.frombuffer: buffer size must be a multiple of element size *)
| ValueError_int_literal (tok : bytes)
    (* int(): invalid literal for int() with base 10: <tok> *)
| ValueError_int_max_str_digits (digits : nat)
    (* int(): Exceeds the limit for integer string conversion: value has
       <digits> digits *)
| ValueError_float_literal (tok : bytes)
    (* float(): could not convert string to float: <tok> *)
| OverflowError_int (z : Z)
    (* a Python integer that the array element cannot take *)
| IndexError.
    (* list index out of range *)

Definition is_ValueError (e : exception) : bool :=
  match e with
  | ValueError_buffer_size | ValueError_int_literal _
  | ValueError_int_max_str_digits _ | ValueError_float_literal _ => true
  | OverflowError_int _ | IndexError => false
  end.

Definition result (A : Type) : Type := (exception + A)%type.

Definition ret {A} (a : A) : result A := inr a.
Definition raise {A} (e : exception) : result A := inl e.

Definition bind {A B} (m : result A) (k : A -> result B) : result B :=
  match m with
  | inl e => inl e
  | inr a => k a
  end.

Notation "x <- m ;; k" := (bind m (fun x => k))
  (at level 61, m at next level, right associativity).

(** ** NumPy integer dtypes *)

Inductive dtype := int8 | int16 | int32 | int64.

(** [dtype.itemsize], in bytes. *)
Definition itemsize (dt : dtype) : nat :=
  match dt with
  | int8 => 1
  | int16 => 2
  | int32 => 4
  | int64 => 8
  end.

Definition bits (dt : dtype) : Z := 8 * Z.of_nat (itemsize dt).

Definition dtype_min (dt : dtype) : Z := - 2 ^ (bits dt - 1).
Definition dtype_max (dt : dtype) : Z := 2 ^ (bits dt - 1) - 1.

Definition in_range (dt : dtype) (z : Z) : bool :=
  (dtype_min dt <=? z) && (z <=? dtype_max dt).

(** ** Big-endian fixed-width integers *)

(** Unsigned value of a byte string, most significant byte first. *)
Fixpoint be_unsigned (bs : bytes) : Z :=
  match bs with
  | [] => 0
  | b :: bs' => byte_val b * 256 ^ Z.of_nat (length bs') + be_unsigned bs'
  end.

(** Two's complement reading of an unsigned [nbits]-bit value. *)
Definition to_signed (nbits : Z) (u : Z) : Z :=
  if u <? 2 ^ (nbits - 1) then u else u - 2 ^ nbits.

(** The C cast of an integer to a signed [nbits]-bit type. *)
Definition wrap (nbits : Z) (z : Z) : Z := to_signed nbits (z mod 2 ^ nbits).

(** One array element of dtype [dt.newbyteorder('>')], read from its bytes. *)
Definition getitem_be (dt : dtype) (item : bytes) : Z :=
  to_signed (bits dt) (be_unsigned item).

(** The [w] bytes of [u mod 256 ^ w], most significant first. *)
Fixpoint be_bytes (w : nat) (u : Z) : bytes :=
  match w with
  | O => []
  | S w' => byte_of_Z (u / 256 ^ Z.of_nat w') :: be_bytes w' u
  end.

(** [ndarray.tobytes()] of an array of dtype [dt.newbyteorder('>')]: every
    element as a big-endian two's complement integer of [itemsize dt] bytes. *)
Definition tobytes_be (dt : dtype) (xs : list Z) : bytes :=
  flat_map (be_bytes (itemsize dt)) xs.

(** ** numpy.frombuffer *)

(** The [n] consecutive items of [w] bytes at the start of a buffer. *)
Fixpoint items (w n : nat) (data : bytes) : list bytes :=
  match n with
  | O => []
  | S n' => firstn w data :: items w n' (skipn w data)
  end.

(** [numpy.frombuffer(data, dtype=dt.newbyteorder('>'))], with the default
    [count = -1] and [offset = 0]: the element count is the buffer size
    divided by the item size, and a remainder is refused. *)
Definition frombuffer_be (data : bytes) (dt : dtype) : result (list Z) :=
  let w := itemsize dt in
  if (length data mod w =? 0)%nat
  then ret (map (getitem_be dt) (items w (length data / w) data))
  else raise ValueError_buffer_size.

(** ** Python built-ins *)

Definition is_semicolon (c : byte) : bool := Byte.eqb c x3b.
Definition is_comma (c : byte) : bool := Byte.eqb c x2c.
Definition is_underscore (c : byte) : bool := Byte.eqb c x5f.
Definition is_dot (c : byte) : bool := Byte.eqb c x2e.
Definition is_plus (c : byte) : bool := Byte.eqb c x2b.
Definition is_minus (c : byte) : bool := Byte.eqb c x2d.
Definition is_e (c : byte) : bool := Byte.eqb c x65 || Byte.eqb c x45.

(** [Py_ISSPACE]: tab, line feed, vertical tab, form feed, carriage return
    and space. *)
Definition is_space (c : byte) : bool :=
  let n := byte_val c in ((9 <=? n) && (n <=? 13)) || (n =? 32).

Definition is_digit (c : byte) : bool :=
  let n := byte_val c in (48 <=? n) && (n <=? 57).

Definition digit_val (c : byte) : Z := byte_val c - 48.

(** [Py_TOLOWER] *)
Definition to_lower (c : byte) : byte :=
  let n := byte_val c in
  if (65 <=? n) && (n <=? 90) then byte_of_Z (n + 32) else c.

Fixpoint bytes_eqb (s t : bytes) : bool :=
  match s, t with
  | [], [] => true
  | c :: s', d :: t' => Byte.eqb c d && bytes_eqb s' t'
  | _, _ => false
  end.

(** [bytes.split(sep)] for a separator of one byte: a buffer with [n]
    separators gives [n + 1] fields, the empty buffer gives one empty field. *)
Fixpoint bytes_split (sep : byte -> bool) (s : bytes) : list bytes :=
  match s with
  | [] => [[]]
  | c :: s' =>
      if sep c then [] :: bytes_split sep s'
      else match bytes_split sep s' with
           | f :: fs => (c :: f) :: fs
           | [] => [[c]]
           end
  end.

Fixpoint lstrip (s : bytes) : bytes :=
  match s with
  | c :: s' => if is_space c then lstrip s' else s
  | [] => []
  end.

Definition rstrip (s : bytes) : bytes := rev (lstrip (rev s)).

Definition strip (s : bytes) : bytes := rstrip (lstrip s).

(** An optional sign: whether it is a minus, and the rest. *)
Definition parse_sign (s : bytes) : bool * bytes :=
  match s with
  | c :: s' =>
      if is_minus c then (true, s')
      else if is_plus c then (false, s')
      else (false, s)
  | [] => (false, [])
  end.

(** *** int() *)

(** The rest of a run of digits after a digit: digits, each optionally
    preceded by one underscore. [acc] is the value so far and [n] the number
    of digits so far; the result has the text that follows the run. An
    underscore that no digit follows is refused. *)
Fixpoint int_digits (acc : Z) (n : nat) (s : bytes) : option (Z * nat * bytes) :=
  match s with
  | [] => Some (acc, n, [])
  | c :: s' =>
      if is_digit c then int_digits (acc * 10 + digit_val c) (S n) s'
      else if is_underscore c then
        match s' with
        | d :: s'' =>
            if is_digit d then int_digits (acc * 10 + digit_val d) (S n) s''
            else None
        | [] => None
        end
      else Some (acc, n, s)
  end.

(** The limit on the digits of a decimal literal: it applies above 640
    digits, and [max_str_digits = 0] switches it off. *)
Definition exceeds_limit (max_str_digits n : nat) : bool :=
  (640 <? n)%nat && (0 <? max_str_digits)%nat && (max_str_digits <? n)%nat.

(** [int(x)] for a bytes object [x], as [PyLong_FromString] reads it in base
    10: white space, an optional sign, digits with single underscores between
    them, white space, and nothing more. [max_str_digits] is the setting
    [sys.get_int_max_str_digits()] of the interpreter (4300 unless changed;
    0 for none, as in the interpreters without this limit). *)
Definition py_int (max_str_digits : nat) (x : bytes) : result Z :=
  let '(neg, ds) := parse_sign (lstrip x) in
  match ds with
  | d :: ds' =>
      if is_digit d then
        match int_digits (digit_val d) 1 ds' with
        | Some (v, n, rest) =>
            if exceeds_limit max_str_digits n
            then raise (ValueError_int_max_str_digits n)
            else match lstrip rest with
                 | [] => ret (if neg then - v else v)
                 | _ :: _ => raise (ValueError_int_literal x)
                 end
        | None => raise (ValueError_int_literal x)
        end
      else raise (ValueError_int_literal x)
  | [] => raise (ValueError_int_literal x)
  end.

(** *** float() *)

Definition prec : Z := 53.
Definition emax : Z := 1024.

(** The binary64 value nearest to [n * 10 ^ e], ties to even, with sign
    [neg]; [n] is not negative. *)
Definition decimal_to_double (neg : bool) (n e : Z) : spec_float :=
  match n with
  | Zpos _ =>
      if 0 <=? e
      then binary_normalize prec emax (cond_Zopp neg (n * 10 ^ e)) 0 neg
      else
        let '(q, e', l) := SFdiv_core_binary prec emax n 0 (10 ^ (- e)) 0 in
        binary_round_aux prec emax neg q e' l
  | _ => S754_zero neg
  end.

(** [_Py_string_to_number_with_underscores]: an underscore is allowed only
    between two digits; [prev] is the previous character (NUL at the start). *)
Fixpoint remove_underscores (prev : byte) (s : bytes) : option bytes :=
  match s with
  | [] => if is_underscore prev then None else Some []
  | c :: s' =>
      if is_underscore c then
        if is_digit prev then remove_underscores c s' else None
      else if is_underscore prev && negb (is_digit c) then None
      else option_map (cons c) (remove_underscores c s')
  end.

(** The longest prefix of digits, and the rest. *)
Fixpoint span_digits (s : bytes) : bytes * bytes :=
  match s with
  | c :: s' =>
      if is_digit c
      then let '(ds, r) := span_digits s' in (c :: ds, r)
      else ([], s)
  | [] => ([], [])
  end.

Definition digits_value (ds : bytes) : Z :=
  fold_left (fun acc d => acc * 10 + digit_val d) ds 0.

(** A decimal number as [strtod] reads it, taking the whole text: optional
    sign, digits with an optional point (at least one digit), and an optional
    exponent of at least one digit. *)
Definition float_number (s : bytes) : option spec_float :=
  let '(neg, s1) := parse_sign s in
  let '(ip, s2) := span_digits s1 in
  let '(fp, s3) :=
    match s2 with
    | c :: r => if is_dot c then span_digits r else ([], s2)
    | [] => ([], [])
    end in
  let n := digits_value (ip ++ fp) in
  let k := Z.of_nat (length fp) in
  match ip ++ fp with
  | [] => None
  | _ :: _ =>
      match s3 with
      | [] => Some (decimal_to_double neg n (- k))
      | c :: r =>
          if is_e c then
            let '(eneg, r1) := parse_sign r in
            let '(ed, r2) := span_digits r1 in
            let x := digits_value ed in
            match ed, r2 with
            | _ :: _, [] =>
                Some (decimal_to_double neg n ((if eneg then - x else x) - k))
            | _, _ => None
            end
          else None
      end
  end.

(** [_Py_parse_inf_or_nan], taking the whole text. *)
Definition inf_or_nan (s : bytes) : option spec_float :=
  let '(neg, r) := parse_sign s in
  let l := map to_lower r in
  if bytes_eqb l (b_ "inf") || bytes_eqb l (b_ "infinity")
  then Some (S754_infinity neg)
  else if bytes_eqb l (b_ "nan") then Some S754_nan
  else None.

Definition float_literal (x : bytes) : option spec_float :=
  match remove_underscores x00 (strip x) with
  | None => None
  | Some t =>
      match float_number t with
      | Some f => Some f
      | None => inf_or_nan t
      end
  end.

(** [float(x)] for a bytes object [x]. *)
Definition py_float (x : bytes) : result spec_float :=
  match float_literal x with
  | Some f => ret f
  | None => raise (ValueError_float_literal x)
  end.

(** [xs[i]] on a list. *)
Definition list_getitem {A} (xs : list A) (i : nat) : result A :=
  match nth_error xs i with
  | Some x => ret x
  | None => raise IndexError
  end.

(** ** numpy.array on a list of bytes objects *)

(** How an element of integer dtype takes the integer read from a bytes
    object. NumPy 1.x reads a C [long] and casts it to the element type;
    NumPy 2 refuses a value outside the range of the element type. *)
Inductive pyint_conversion := LegacyCast | BoundsChecked.

(** How the bytes object reaches [int()]: as it is, when the element is set
    from the object itself, or as the bytes scalar read back from a
    fixed-size string item, which has lost its trailing NUL bytes, when the
    element is cast from a string item. *)
Inductive token_passing := AsObject | AsStringItem.

(** The NumPy in use. The source does not say which NumPy it runs on, so
    both choices are parameters of the model. *)
Record numpy := mkNumpy {
  passing : token_passing;
  conversion : pyint_conversion
}.

Fixpoint lstrip_nul (s : bytes) : bytes :=
  match s with
  | c :: s' => if Byte.eqb c x00 then lstrip_nul s' else s
  | [] => []
  end.

(** A byte string without its trailing NUL bytes. *)
Definition rstrip_nul (s : bytes) : bytes := rev (lstrip_nul (rev s)).

(** The bytes object that [int()] is called on. *)
Definition read_token (p : token_passing) (op : bytes) : bytes :=
  match p with
  | AsObject => op
  | AsStringItem => rstrip_nul op
  end.

(** Width of a C [long] (LP64). *)
Definition c_long_bits : Z := 64.

Definition fits_c_long (z : Z) : bool :=
  (- 2 ^ (c_long_bits - 1) <=? z) && (z <? 2 ^ (c_long_bits - 1)).

(** NumPy's [MyPyLong_AsLong] on a bytes object: [PyNumber_Long], that is
    [int()], then [PyLong_AsLong], which refuses what a C [long] cannot
    hold. *)
Definition MyPyLong_AsLong (max_str_digits : nat) (op : bytes) : result Z :=
  z <- py_int max_str_digits op ;;
  if fits_c_long z then ret z else raise (OverflowError_int z).

(** [setitem] of an integer dtype on a bytes object. Under [LegacyCast] the
    C [long] read from it is cast to the element type; under [BoundsChecked]
    the integer read from it is stored when it is in the range of the element
    type and refused otherwise. *)
Definition int_setitem (np : numpy) (max_str_digits : nat) (dt : dtype)
           (op : bytes) : result Z :=
  let op := read_token (passing np) op in
  match conversion np with
  | LegacyCast =>
      z <- MyPyLong_AsLong max_str_digits op ;;
      ret (wrap (bits dt) z)
  | BoundsChecked =>
      z <- py_int max_str_digits op ;;
      if in_range dt z then ret z else raise (OverflowError_int z)
  end.

(** [numpy.array(toks, dtype=dt)] for a list of bytes objects: the elements
    are set in order and the first failure is raised. *)
Fixpoint np_array (np : numpy) (max_str_digits : nat) (toks : list bytes)
         (dt : dtype) : result (list Z) :=
  match toks with
  | [] => ret []
  | tok :: toks' =>
      x <- int_setitem np max_str_digits dt tok ;;
      xs <- np_array np max_str_digits toks' dt ;;
      ret (x :: xs)
  end.

(** ** tekscope.waveform *)

(** Modelled from the spec: the class [WaveformMetadata] of
    [tekscope/waveform.py], a value object of five floats that its constructor
    takes in this order. *)
Record WaveformMetadata := mkWaveformMetadata {
  t_incr : spec_float;
  t_zero : spec_float;
  v_mult : spec_float;
  v_off : spec_float;
  v_zero : spec_float
}.

(** ** tekscope.parse *)

(** [parse_ribinary_seq]:
    [np.frombuffer(data, dtype=np.dtype(dtype).newbyteorder('>'))]. *)
Definition parse_ribinary_seq (data : bytes) (dt : dtype) : result (list Z) :=
  frombuffer_be data dt.

(** [parse_ascii_seq]: [np.array(data.split(b","), dtype=dtype)], with the
    NumPy in use, [np], and in an interpreter whose limit on integer literals
    is [max_str_digits]. *)
Definition parse_ascii_seq (np : numpy) (max_str_digits : nat) (data : bytes)
           (dt : dtype) : result (list Z) :=
  np_array np max_str_digits (bytes_split is_comma data) dt.

(** [parse_wfmoutpre]: the fields of the record, [None] when there are fewer
    than 17, otherwise the metadata built from fields 10, 11, 14, 15, 16. *)
Definition parse_wfmoutpre (data : bytes) : result (option WaveformMetadata) :=
  let data := bytes_split is_semicolon data in
  if (length data <? 17)%nat then ret None
  else
    f10 <- list_getitem data 10 ;; a <- py_float f10 ;;
    f11 <- list_getitem data 11 ;; b <- py_float f11 ;;
    f14 <- list_getitem data 14 ;; c <- py_float f14 ;;
    f15 <- list_getitem data 15 ;; d <- py_float f15 ;;
    f16 <- list_getitem data 16 ;; e <- py_float f16 ;;
    ret (Some (mkWaveformMetadata a b c d e)).

(** The example record of the specification, from the docstring of
    [parse_wfmoutpre]. *)
Definition dquote : bytes := [x22].

Definition example_preamble : bytes :=
  b_ "1;8;BINARY;RI;MSB;" ++ dquote
  ++ b_ "Ch1, DC coupling, 100.0mV/div, 400.0ns/div, 10000 points, Sample mode"
  ++ dquote ++ b_ ";10000;Y;LINEAR;" ++ dquote ++ b_ "s" ++ dquote
  ++ b_ ";400.0000E-12;-20.0000E-6;0;" ++ dquote ++ b_ "V" ++ dquote
  ++ b_ ";4.0000E-3;0.0E+0;0.0E+0;TIME;ANALOG;0.0E+0;0.0E+0;0.0E+0".

(** ** The literals of the specification *)

(** A decimal integer literal in the words of the specification: an optional
    leading sign, then one or more digits, nothing else. Its value, or [None]
    when the token is not such a literal. *)
Definition spec_decimal_value (tok : bytes) : option Z :=
  let '(neg, ds) := parse_sign tok in
  match ds with
  | [] => None
  | _ :: _ =>
      if forallb is_digit ds
      then Some (if neg then - digits_value ds else digits_value ds)
      else None
  end.

(** One or more digits, with single underscores allowed between two
    digits. *)
Fixpoint grouped_digits (s : bytes) : bool :=
  match s with
  | [] => false
  | d :: s' =>
      is_digit d &&
      match s' with
      | [] => true
      | c :: s'' =>
          if is_underscore c then grouped_digits s'' else grouped_digits s'
      end
  end.

(** The decimal integer literal of the specification, relaxed in the two
    ways the code is: white space around the token is dropped, and single
    underscores may stand between the digits. *)
Definition relaxed_decimal_literal (tok : bytes) : bool :=
  let '(_, ds) := parse_sign (strip tok) in
  grouped_digits ds.

Inductive sign := NoSign | Plus | Minus.

Definition sign_text (sg : sign) : bytes :=
  match sg with
  | NoSign => []
  | Plus => [x2b]
  | Minus => [x2d]
  end.

Definition sign_neg (sg : sign) : bool :=
  match sg with
  | Minus => true
  | _ => false
  end.











(** ** Character classes used in the proofs *)

(** A character that is neither white space nor an underscore. *)
Definition plain (c : byte) : bool :=
  negb (is_space c) && negb (is_underscore c).

(** The first character, if any, satisfies [p]. *)
Definition head_is (p : byte -> bool) (s : bytes) : bool :=
  match s with
  | c :: _ => p c
  | [] => true
  end.

Definition not_sign (c : byte) : bool := negb (is_minus c) && negb (is_plus c).

(** ** Examples *)



(** A record with the same five fields as the docstring example and other
    fields of its own. *)
Definition other_preamble : bytes :=
  b_ "2;16;ASCII;RP;LSB;x;500;Y;LINEAR;ms;400.0000E-12;-20.0000E-6;7;mV;4.0000E-3;0.0E+0;0.0E+0".

(** * Properties *)

(** ** Bytes and big-endian integers *)

Lemma byte_val_range (b : byte) : 0 <= byte_val b < 256.
Proof.
  unfold byte_val. pose proof (Byte.to_N_bounded b). lia.
Qed.

Lemma byte_of_Z_val (b : byte) (k : Z) : byte_of_Z (byte_val b + k * 256) = b.
Proof.
  unfold byte_of_Z.
  rewrite Z.mod_add by lia.
  rewrite Z.mod_small by apply byte_val_range.
  unfold byte_val. rewrite N2Z.id, Byte.of_to_N. reflexivity.
Qed.

Lemma be_unsigned_range (bs : bytes) :
  0 <= be_unsigned bs < 256 ^ Z.of_nat (length bs).
Proof.
  induction bs as [|b bs IH]; simpl be_unsigned; simpl length.
  - simpl. lia.
  - rewrite Nat2Z.inj_succ, Z.pow_succ_r by lia.
    pose proof (byte_val_range b). nia.
Qed.

Lemma be_bytes_unsigned (bs : bytes) (k : Z) :
  be_bytes (length bs) (be_unsigned bs + k * 256 ^ Z.of_nat (length bs)) = bs.
Proof.
  revert k. induction bs as [|b bs IH]; intros k; simpl length.
  - reflexivity.
  - cbn [be_bytes be_unsigned]. f_equal.
    + pose proof (be_unsigned_range bs) as Hr.
      set (p := 256 ^ Z.of_nat (length bs)) in *.
      rewrite Nat2Z.inj_succ, Z.pow_succ_r by lia. fold p.
      replace (byte_val b * p + be_unsigned bs + k * (256 * p))
        with (be_unsigned bs + (byte_val b + k * 256) * p) by ring.
      rewrite Z.div_add by lia.
      rewrite Z.div_small by lia.
      apply byte_of_Z_val.
    + rewrite Nat2Z.inj_succ, Z.pow_succ_r by lia.
      replace (byte_val b * 256 ^ Z.of_nat (length bs) + be_unsigned bs
               + k * (256 * 256 ^ Z.of_nat (length bs)))
        with (be_unsigned bs
              + (byte_val b + k * 256) * 256 ^ Z.of_nat (length bs)) by ring.
      apply IH.
Qed.

Lemma pow_bits (dt : dtype) : 2 ^ bits dt = 256 ^ Z.of_nat (itemsize dt).
Proof. destruct dt; reflexivity. Qed.

Lemma to_signed_cases (n u : Z) : to_signed n u = u \/ to_signed n u = u - 2 ^ n.
Proof. unfold to_signed. destruct (u <? 2 ^ (n - 1)); auto. Qed.

Lemma pow2_bits_pos (dt : dtype) : 0 < 2 ^ (bits dt - 1) /\
  2 ^ bits dt = 2 * 2 ^ (bits dt - 1) /\ 2 ^ (bits dt - 1) <= 2 ^ 63.
Proof. destruct dt; vm_compute; intuition congruence. Qed.

(** An element read from an item of the dtype's size is in the dtype's
    range. *)
Lemma getitem_be_in_range (dt : dtype) (item : bytes) :
  length item = itemsize dt -> in_range dt (getitem_be dt item) = true.
Proof.
  intros Hlen. pose proof (be_unsigned_range item) as Hu.
  rewrite Hlen, <- pow_bits in Hu.
  destruct (pow2_bits_pos dt) as [Hpos [Hdouble _]].
  unfold in_range, dtype_min, dtype_max, getitem_be, to_signed.
  apply andb_true_iff.
  destruct (be_unsigned item <? 2 ^ (bits dt - 1)) eqn:Hlt;
    [apply Z.ltb_lt in Hlt | apply Z.ltb_ge in Hlt];
    split; apply Z.leb_le; lia.
Qed.

(** Writing back the element read from an item gives the item. *)
Lemma be_bytes_getitem (dt : dtype) (item : bytes) :
  length item = itemsize dt ->
  be_bytes (itemsize dt) (getitem_be dt item) = item.
Proof.
  intros Hlen. unfold getitem_be.
  destruct (to_signed_cases (bits dt) (be_unsigned item)) as [-> | ->].
  - rewrite <- Hlen.
    replace (be_unsigned item)
      with (be_unsigned item + 0 * 256 ^ Z.of_nat (length item)) at 1 by ring.
    apply be_bytes_unsigned.
  - rewrite pow_bits, <- Hlen.
    replace (be_unsigned item - 256 ^ Z.of_nat (length item))
      with (be_unsigned item + (-1) * 256 ^ Z.of_nat (length item)) by ring.
    apply be_bytes_unsigned.
Qed.

(** ** The items of a buffer *)

Lemma items_length (w n : nat) (data : bytes) : length (items w n data) = n.
Proof.
  revert data. induction n as [|n IH]; intros data; simpl; auto.
Qed.

Lemma items_nth (w n : nat) (data : bytes) (i : nat) :
  (i < n)%nat ->
  nth_error (items w n data) i = Some (firstn w (skipn (i * w) data)).
Proof.
  revert data i. induction n as [|n IH]; intros data i Hi; [lia|].
  destruct i as [|i]; cbn [items nth_error].
  - reflexivity.
  - rewrite IH by lia. rewrite skipn_skipn.
    replace (i * w + w)%nat with (S i * w)%nat by lia. reflexivity.
Qed.

Lemma items_item_length (w n : nat) (data item : bytes) :
  (n * w <= length data)%nat ->
  In item (items w n data) -> length item = w.
Proof.
  revert data. induction n as [|n IH]; intros data Hlen Hin; simpl in *.
  - contradiction.
  - destruct Hin as [<- | Hin].
    + rewrite length_firstn. lia.
    + apply (IH (skipn w data)); auto. rewrite length_skipn. lia.
Qed.

Lemma items_concat (w n : nat) (data : bytes) :
  (n * w = length data)%nat -> concat (items w n data) = data.
Proof.
  revert data. induction n as [|n IH]; intros data Hlen; simpl in *.
  - destruct data; [reflexivity | discriminate].
  - rewrite IH.
    + apply firstn_skipn.
    + rewrite length_skipn. lia.
Qed.

Lemma itemsize_pos (dt : dtype) : (0 < itemsize dt)%nat.
Proof. destruct dt; simpl; lia. Qed.

Lemma whole_items (dt : dtype) (data : bytes) :
  (length data mod itemsize dt = 0)%nat ->
  (length data / itemsize dt * itemsize dt = length data)%nat.
Proof.
  intros Hmod.
  rewrite (Nat.div_mod_eq (length data) (itemsize dt)) at 2.
  rewrite Hmod, Nat.add_0_r. apply Nat.mul_comm.
Qed.

Lemma frombuffer_be_ok (dt : dtype) (data : bytes) :
  (length data mod itemsize dt = 0)%nat ->
  frombuffer_be data dt =
  inr (map (getitem_be dt)
           (items (itemsize dt) (length data / itemsize dt) data)).
Proof.
  intros Hmod. unfold frombuffer_be.
  apply Nat.eqb_eq in Hmod. rewrite Hmod. reflexivity.
Qed.

Lemma tobytes_be_items (dt : dtype) (its : list bytes) :
  (forall item, In item its -> length item = itemsize dt) ->
  tobytes_be dt (map (getitem_be dt) its) = concat its.
Proof.
  unfold tobytes_be. induction its as [|item its IH]; intros Hall; simpl.
  - reflexivity.
  - rewrite be_bytes_getitem by (apply Hall; simpl; auto).
    f_equal. apply IH. intros it Hit. apply Hall. simpl; auto.
Qed.

(** ** parse_ribinary_seq *)

(** C3: a buffer whose length is not an exact multiple of the element width
    is refused: [parse_ribinary_seq] raises the [ValueError] of
    [numpy.frombuffer] (the format error of the specification) and returns no
    value. *)
Theorem parse_ribinary_seq_partial_item (data : bytes) (dt : dtype) :
  (length data mod itemsize dt <> 0)%nat ->
  parse_ribinary_seq data dt = inl ValueError_buffer_size
  /\ is_ValueError ValueError_buffer_size = true.
Proof.
  intros Hmod. split; [|reflexivity].
  unfold parse_ribinary_seq, frombuffer_be.
  apply Nat.eqb_neq in Hmod. rewrite Hmod. reflexivity.
Qed.

Lemma parse_ribinary_seq_partial_item_witness :
  parse_ribinary_seq [x07; x05; xf8] int16 = inl ValueError_buffer_size
  /\ is_ValueError ValueError_buffer_size = true.
Proof.
  apply (parse_ribinary_seq_partial_item [x07; x05; xf8] int16).
  simpl. lia.
Defined.

(** C4: round trip. A buffer whose length is a multiple of the element width
    decodes to a sequence, and writing that sequence back as big-endian
    two's complement integers of the same width gives the buffer again. *)
Theorem parse_ribinary_seq_round_trip (data : bytes) (dt : dtype) :
  (length data mod itemsize dt = 0)%nat ->
  exists xs,
    parse_ribinary_seq data dt = inr xs /\ tobytes_be dt xs = data.
Proof.
  intros Hmod. unfold parse_ribinary_seq.
  rewrite frombuffer_be_ok by assumption.
  eexists. split; [reflexivity|].
  pose proof (whole_items dt data Hmod) as Hwhole.
  rewrite tobytes_be_items.
  - apply items_concat. assumption.
  - intros item Hin.
    apply (items_item_length _ (length data / itemsize dt) data);
      [lia | assumption].
Qed.

Lemma parse_ribinary_seq_round_trip_witness :
  exists xs,
    parse_ribinary_seq [x07; x05; xf8; xc1] int16 = inr xs
    /\ tobytes_be int16 xs = [x07; x05; xf8; xc1].
Proof.
  apply (parse_ribinary_seq_round_trip [x07; x05; xf8; xc1] int16).
  reflexivity.
Defined.

(** Unfolds the decoding of a buffer whose length is known. *)
Ltac decode_items :=
  cbv [frombuffer_be getitem_be itemsize length Nat.modulo Nat.divmod Nat.div
       Nat.eqb fst snd Nat.sub items map firstn skipn ret bits be_unsigned];
  change (8 * Z.of_nat 2) with 16; change (8 * Z.of_nat 4) with 32;
  change (Z.of_nat 3) with 3; change (Z.of_nat 2) with 2;
  change (Z.of_nat 1) with 1; change (Z.of_nat 0) with 0.

(** C5: the buffer is read most significant byte first, whatever the host:
    the result is a function of the bytes and the width alone, every element
    is in the range of the signed type of that width, the docstring example
    decodes to [1797; -1855], and a two-byte (four-byte) item is the two's
    complement reading of its bytes weighted from the left. *)
Theorem parse_ribinary_seq_big_endian :
  parse_ribinary_seq [x07; x05; xf8; xc1] int16 = inr [1797; -1855]
  /\ (forall b1 b0 : byte,
        parse_ribinary_seq [b1; b0] int16 =
        inr [to_signed 16 (byte_val b1 * 256 + byte_val b0)])
  /\ (forall b3 b2 b1 b0 : byte,
        parse_ribinary_seq [b3; b2; b1; b0] int32 =
        inr [to_signed 32 (byte_val b3 * 256 ^ 3 + byte_val b2 * 256 ^ 2
                           + byte_val b1 * 256 + byte_val b0)])
  /\ (forall (data : bytes) (dt : dtype) (xs : list Z),
        parse_ribinary_seq data dt = inr xs ->
        Forall (fun x => in_range dt x = true) xs).
Proof.
  split; [reflexivity|]. split; [|split].
  - intros b1 b0. cbv [parse_ribinary_seq]. decode_items.
    do 3 f_equal. change (256 ^ 1) with 256. change (256 ^ 0) with 1. lia.
  - intros b3 b2 b1 b0. cbv [parse_ribinary_seq]. decode_items.
    do 3 f_equal. change (256 ^ 1) with 256. change (256 ^ 0) with 1. lia.
  - intros data dt xs. unfold parse_ribinary_seq, frombuffer_be.
    destruct (length data mod itemsize dt =? 0)%nat eqn:Hmod; [|discriminate].
    apply Nat.eqb_eq in Hmod. intros [= <-].
    pose proof (whole_items dt data Hmod) as Hwhole.
    apply Forall_forall. intros x Hx.
    apply in_map_iff in Hx as [item [<- Hin]].
    apply getitem_be_in_range.
    apply (items_item_length _ (length data / itemsize dt) data);
      [lia | assumption].
Qed.

Lemma parse_ribinary_seq_big_endian_witness :
  Forall (fun x => in_range int16 x = true) [1797; -1855].
Proof.
  apply (proj2 (proj2 (proj2 parse_ribinary_seq_big_endian))
           [x07; x05; xf8; xc1] int16).
  reflexivity.
Defined.

(** C8: the empty buffer decodes to the empty sequence, at every width. *)
Theorem parse_ribinary_seq_empty (dt : dtype) :
  parse_ribinary_seq [] dt = inr [].
Proof. destruct dt; reflexivity. Qed.

(** C10: a buffer of [n] bytes, [n] a multiple of the width [w], decodes to
    [n / w] elements, and element [i] is read from bytes [i * w] to
    [i * w + w - 1]. *)
Theorem parse_ribinary_seq_elements (data : bytes) (dt : dtype) :
  (length data mod itemsize dt = 0)%nat ->
  exists xs,
    parse_ribinary_seq data dt = inr xs
    /\ length xs = (length data / itemsize dt)%nat
    /\ forall i, (i < length xs)%nat ->
         nth_error xs i =
         Some (to_signed (bits dt)
                 (be_unsigned
                    (firstn (itemsize dt) (skipn (i * itemsize dt) data))))
         /\ length (firstn (itemsize dt) (skipn (i * itemsize dt) data))
            = itemsize dt.
Proof.
  intros Hmod. unfold parse_ribinary_seq.
  rewrite frombuffer_be_ok by assumption.
  eexists. split; [reflexivity|].
  rewrite length_map, items_length. split; [reflexivity|].
  intros i Hi. split.
  - rewrite nth_error_map, items_nth by assumption. reflexivity.
  - pose proof (whole_items dt data Hmod) as Hwhole.
    rewrite length_firstn, length_skipn.
    assert (S i * itemsize dt <= length data)%nat by nia.
    lia.
Qed.

Lemma parse_ribinary_seq_elements_witness :
  exists xs,
    parse_ribinary_seq [x07; x05; xf8; xc1] int16 = inr xs
    /\ length xs = (4 / 2)%nat
    /\ forall i, (i < length xs)%nat ->
         nth_error xs i =
         Some (to_signed 16
                 (be_unsigned (firstn 2 (skipn (i * 2) [x07; x05; xf8; xc1]))))
         /\ length (firstn 2 (skipn (i * 2) [x07; x05; xf8; xc1])) = 2%nat.
Proof.
  apply (parse_ribinary_seq_elements [x07; x05; xf8; xc1] int16).
  reflexivity.
Defined.

(** ** Characters and literals *)

Ltac by_byte_cases c :=
  destruct c; vm_compute; intuition congruence.

Lemma digit_plain (c : byte) : is_digit c = true -> plain c = true.
Proof. by_byte_cases c. Qed.

Lemma digit_not_sign (c : byte) :
  is_digit c = true -> is_minus c = false /\ is_plus c = false.
Proof. by_byte_cases c. Qed.

Lemma dot_not_digit (c : byte) : is_dot c = true -> is_digit c = false.
Proof. by_byte_cases c. Qed.



Lemma sign_text_plain (sg : sign) : forallb plain (sign_text sg) = true.
Proof. destruct sg; reflexivity. Qed.

Lemma digits_plain (ds : bytes) :
  forallb is_digit ds = true -> forallb plain ds = true.
Proof.
  induction ds as [|d ds IH]; simpl; [reflexivity|].
  intros H. apply andb_true_iff in H as [Hd Hds].
  rewrite (digit_plain d Hd). auto.
Qed.

Lemma lstrip_plain (s : bytes) : forallb plain s = true -> lstrip s = s.
Proof.
  destruct s as [|c s]; simpl; [reflexivity|].
  intros H. apply andb_true_iff in H as [Hc _].
  unfold plain in Hc. destruct (is_space c); [discriminate | reflexivity].
Qed.

Lemma forallb_rev {A} (p : A -> bool) (s : list A) :
  forallb p s = true -> forallb p (rev s) = true.
Proof.
  rewrite !forallb_forall. intros H x Hx. apply H, in_rev, Hx.
Qed.

Lemma strip_plain (s : bytes) : forallb plain s = true -> strip s = s.
Proof.
  intros H. unfold strip, rstrip.
  rewrite (lstrip_plain s H).
  rewrite lstrip_plain by (apply forallb_rev, H).
  apply rev_involutive.
Qed.


Lemma parse_sign_text (sg : sign) (rest : bytes) :
  head_is not_sign rest = true ->
  parse_sign (sign_text sg ++ rest) = (sign_neg sg, rest).
Proof.
  intros H. destruct sg; try reflexivity.
  destruct rest as [|c rest]; [reflexivity|].
  simpl in *. unfold not_sign in H.
  destruct (is_minus c); [discriminate|].
  destruct (is_plus c); [discriminate|]. reflexivity.
Qed.




(** *** int() on the integer literals of the specification *)

Lemma int_digits_all (ds : bytes) (acc : Z) (n : nat) :
  forallb is_digit ds = true ->
  int_digits acc n ds =
  Some (fold_left (fun a d => a * 10 + digit_val d) ds acc,
        (n + length ds)%nat, []).
Proof.
  revert acc n. induction ds as [|d ds IH]; intros acc n H; simpl.
  - rewrite Nat.add_0_r. reflexivity.
  - simpl in H. apply andb_true_iff in H as [Hd Hds].
    rewrite Hd, (IH _ _ Hds). do 3 f_equal. lia.
Qed.

Lemma parse_sign_cases (s r : bytes) (neg : bool) :
  parse_sign s = (neg, r) ->
  (s = r /\ neg = false) \/ (exists sg, s = sign_text sg ++ r /\ sg <> NoSign).
Proof.
  unfold parse_sign. destruct s as [|c s].
  - intros [= <- <-]. auto.
  - destruct (is_minus c) eqn:Hm.
    + intros [= <- <-]. right. exists Minus.
      apply Byte.byte_dec_bl in Hm. subst c. split; [reflexivity | discriminate].
    + destruct (is_plus c) eqn:Hp.
      * intros [= <- <-]. right. exists Plus.
        apply Byte.byte_dec_bl in Hp. subst c.
        split; [reflexivity | discriminate].
      * intros [= <- <-]. auto.
Qed.

Lemma exceeds_limit_mono (max_str_digits n m : nat) :
  (n <= m)%nat ->
  exceeds_limit max_str_digits m = false ->
  exceeds_limit max_str_digits n = false.
Proof.
  unfold exceeds_limit. intros Hle H.
  destruct (640 <? n)%nat eqn:H1; [|reflexivity].
  destruct (0 <? max_str_digits)%nat eqn:H2; [|reflexivity].
  destruct (max_str_digits <? n)%nat eqn:H3; [|reflexivity].
  apply Nat.ltb_lt in H1, H3.
  assert (H1' : (640 <? m)%nat = true) by (apply Nat.ltb_lt; lia).
  assert (H3' : (max_str_digits <? m)%nat = true) by (apply Nat.ltb_lt; lia).
  rewrite H1', H3' in H. discriminate.
Qed.

(** [int()] gives a decimal integer literal of the specification its value,
    unless the literal is longer than the interpreter allows. *)
Lemma py_int_spec_decimal (max_str_digits : nat) (tok : bytes) (z : Z) :
  spec_decimal_value tok = Some z ->
  exceeds_limit max_str_digits (length tok) = false ->
  py_int max_str_digits tok = inr z.
Proof.
  unfold spec_decimal_value.
  destruct (parse_sign tok) as [neg ds] eqn:Hsign.
  destruct ds as [|d ds']; [discriminate|].
  destruct (forallb is_digit (d :: ds')) eqn:Hds; [|discriminate].
  intros [= <-] Hlimit.
  assert (Hplain : forallb plain tok = true /\
                   (length (d :: ds') <= length tok)%nat).
  { destruct (parse_sign_cases _ _ _ Hsign) as [[-> _] | [sg [-> _]]].
    - split; [apply digits_plain, Hds | lia].
    - rewrite forallb_app, sign_text_plain, digits_plain by assumption.
      rewrite length_app. split; [reflexivity | lia]. }
  destruct Hplain as [Hplain Hlen].
  unfold py_int. rewrite (lstrip_plain tok Hplain), Hsign.
  simpl in Hds. apply andb_true_iff in Hds as [Hd Hds'].
  rewrite Hd, (int_digits_all ds' _ _ Hds').
  change (1 + length ds')%nat with (length (d :: ds')).
  rewrite (exceeds_limit_mono max_str_digits _ _ Hlen Hlimit).
  reflexivity.
Qed.

(** *** float() on the floating-point literals of the specification *)






(** ** parse_wfmoutpre *)

Lemma list_getitem_nth {A} (xs : list A) (i : nat) (d : A) :
  (i < length xs)%nat -> list_getitem xs i = inr (nth i xs d).
Proof.
  intros Hi. unfold list_getitem.
  rewrite (nth_error_nth' xs d Hi). reflexivity.
Qed.

(** With 17 fields or more, the result is decided by [float()] of fields 10,
    11, 14, 15 and 16, taken in this order. *)
Lemma parse_wfmoutpre_long (data : bytes) :
  let fields := bytes_split is_semicolon data in
  (17 <= length fields)%nat ->
  parse_wfmoutpre data =
  (a <- py_float (nth 10 fields []) ;;
   b <- py_float (nth 11 fields []) ;;
   c <- py_float (nth 14 fields []) ;;
   d <- py_float (nth 15 fields []) ;;
   e <- py_float (nth 16 fields []) ;;
   ret (Some (mkWaveformMetadata a b c d e))).
Proof.
  intros fields Hlen. unfold parse_wfmoutpre. fold fields.
  assert (Hlt : (length fields <? 17)%nat = false)
    by (apply Nat.ltb_ge; assumption).
  rewrite Hlt.
  rewrite !(list_getitem_nth fields _ []) by lia.
  reflexivity.
Qed.




(** C2: a buffer with fewer than 17 fields gives [None]: no exception and no
    metadata object. *)
Theorem parse_wfmoutpre_short (data : bytes) :
  (length (bytes_split is_semicolon data) < 17)%nat ->
  parse_wfmoutpre data = inr None.
Proof.
  intros Hlen. unfold parse_wfmoutpre.
  apply Nat.ltb_lt in Hlen. rewrite Hlen. reflexivity.
Qed.

Lemma parse_wfmoutpre_short_witness :
  parse_wfmoutpre (b_ "1;8;BINARY;RI;MSB") = inr None.
Proof.
  apply (parse_wfmoutpre_short (b_ "1;8;BINARY;RI;MSB")).
  vm_compute. lia.
Defined.

(** C9: two records of at least 17 fields that agree on fields 10, 11, 14, 15
    and 16 have the same outcome, whatever their other fields: the same
    metadata (or the same [float()] failure), never [None]. *)
Theorem parse_wfmoutpre_other_fields_ignored (data1 data2 : bytes) :
  let fields1 := bytes_split is_semicolon data1 in
  let fields2 := bytes_split is_semicolon data2 in
  (17 <= length fields1)%nat ->
  (17 <= length fields2)%nat ->
  (forall i, In i [10; 11; 14; 15; 16]%nat ->
             nth_error fields1 i = nth_error fields2 i) ->
  parse_wfmoutpre data1 = parse_wfmoutpre data2
  /\ parse_wfmoutpre data1 <> inr None.
Proof.
  intros fields1 fields2 Hlen1 Hlen2 Hsame.
  rewrite (parse_wfmoutpre_long data1), (parse_wfmoutpre_long data2)
    by assumption.
  fold fields1 fields2. clearbody fields1 fields2.
  assert (Hnth : forall i, In i [10; 11; 14; 15; 16]%nat ->
                           nth i fields1 [] = nth i fields2 []).
  { intros i Hi. pose proof (Hsame i Hi) as Heq.
    assert (Hi17 : (i < 17)%nat) by (simpl in Hi; intuition lia).
    rewrite (nth_error_nth' fields1 (@nil byte)) in Heq by lia.
    rewrite (nth_error_nth' fields2 (@nil byte)) in Heq by lia.
    congruence. }
  rewrite !Hnth by (simpl; auto 10).
  split; [reflexivity|].
  destruct (py_float (nth 10 fields2 [])); [discriminate|].
  destruct (py_float (nth 11 fields2 [])); [discriminate|].
  destruct (py_float (nth 14 fields2 [])); [discriminate|].
  destruct (py_float (nth 15 fields2 [])); [discriminate|].
  destruct (py_float (nth 16 fields2 [])); discriminate.
Qed.

Lemma parse_wfmoutpre_other_fields_ignored_witness :
  parse_wfmoutpre example_preamble = parse_wfmoutpre other_preamble
  /\ parse_wfmoutpre example_preamble <> inr None.
Proof.
  apply (parse_wfmoutpre_other_fields_ignored example_preamble other_preamble).
  - vm_compute. lia.
  - vm_compute. lia.
  - intros i Hi. simpl in Hi.
    repeat (destruct Hi as [<- | Hi]; [vm_compute; reflexivity|]).
    contradiction.
Defined.

(** ** parse_ascii_seq *)

(** The cast to a signed type gives the value of that type that is congruent
    to the integer modulo [2 ^ bits]. *)
Lemma wrap_spec (dt : dtype) (z : Z) :
  in_range dt (wrap (bits dt) z) = true
  /\ (wrap (bits dt) z - z) mod 2 ^ bits dt = 0.
Proof.
  destruct (pow2_bits_pos dt) as [Hpos [Hdouble _]].
  unfold in_range, dtype_min, dtype_max, wrap, to_signed.
  set (h := 2 ^ (bits dt - 1)) in *. set (m := 2 ^ bits dt) in *.
  assert (Hm : 0 <= z mod m < m) by (apply Z.mod_pos_bound; lia).
  pose proof (Z.div_mod z m ltac:(lia)) as Hdiv.
  destruct (z mod m <? h) eqn:Hlt.
  - apply Z.ltb_lt in Hlt. split.
    + apply andb_true_iff. split; [apply Z.leb_le | apply Z.leb_le]; lia.
    + replace (z mod m - z) with ((- (z / m)) * m) by lia.
      apply Z.mod_mul. lia.
  - apply Z.ltb_ge in Hlt. split.
    + apply andb_true_iff. split; [apply Z.leb_le | apply Z.leb_le]; lia.
    + replace (z mod m - m - z) with ((- (z / m) - 1) * m) by lia.
      apply Z.mod_mul. lia.
Qed.

(** A value in range is left as it is. *)
Lemma wrap_in_range (dt : dtype) (z : Z) :
  in_range dt z = true -> wrap (bits dt) z = z.
Proof.
  destruct (pow2_bits_pos dt) as [Hpos [Hdouble _]].
  unfold in_range, dtype_min, dtype_max, wrap, to_signed.
  set (h := 2 ^ (bits dt - 1)) in *. set (m := 2 ^ bits dt) in *.
  intros H. apply andb_true_iff in H as [Hlo Hhi].
  apply Z.leb_le in Hlo, Hhi.
  destruct (Z_lt_le_dec z 0) as [Hneg | Hnn].
  - replace (z mod m) with (z + m)
      by (apply (Z.mod_unique z m (-1) (z + m)); lia).
    destruct (z + m <? h) eqn:Hlt; [apply Z.ltb_lt in Hlt|]; lia.
  - rewrite Z.mod_small by lia.
    destruct (z <? h) eqn:Hlt; [|apply Z.ltb_ge in Hlt]; lia.
Qed.

Lemma in_range_fits_c_long (dt : dtype) (z : Z) :
  in_range dt z = true -> fits_c_long z = true.
Proof.
  destruct (pow2_bits_pos dt) as [Hpos [_ Hle]].
  unfold in_range, dtype_min, dtype_max, fits_c_long, c_long_bits.
  change (2 ^ (64 - 1)) with (2 ^ 63).
  intros H. apply andb_true_iff in H as [Hlo Hhi].
  apply Z.leb_le in Hlo, Hhi.
  apply andb_true_iff. split; [apply Z.leb_le | apply Z.ltb_lt]; lia.
Qed.

(** *** What int() accepts *)

Lemma space_not_digit (c : byte) :
  is_space c = true -> is_digit c = false /\ is_underscore c = false.
Proof. by_byte_cases c. Qed.

Lemma underscore_not_space (c : byte) :
  is_underscore c = true -> is_space c = false /\ is_digit c = false.
Proof. by_byte_cases c. Qed.

Lemma lstrip_spaces_app (lead s : bytes) :
  forallb is_space lead = true -> lstrip (lead ++ s) = lstrip s.
Proof.
  induction lead as [|c lead IH]; simpl; [reflexivity|].
  intros H. apply andb_true_iff in H as [Hc Hlead].
  rewrite Hc. apply IH, Hlead.
Qed.

Lemma lstrip_spaces (s : bytes) : forallb is_space s = true -> lstrip s = [].
Proof.
  intros H. rewrite <- (app_nil_r s). rewrite lstrip_spaces_app by assumption.
  reflexivity.
Qed.

Lemma lstrip_nil (s : bytes) : lstrip s = [] -> forallb is_space s = true.
Proof.
  induction s as [|c s IH]; simpl; [reflexivity|].
  destruct (is_space c); [exact IH | discriminate].
Qed.

(** What [lstrip] drops is white space. *)
Lemma lstrip_split (s : bytes) :
  exists lead, s = lead ++ lstrip s /\ forallb is_space lead = true.
Proof.
  induction s as [|c s [lead [Hs Hlead]]].
  - exists []. auto.
  - simpl. destruct (is_space c) eqn:Hc.
    + exists (c :: lead). simpl. rewrite Hc, Hlead. split; [|reflexivity].
      f_equal. exact Hs.
    + exists []. auto.
Qed.

Lemma lstrip_no_space (s : bytes) :
  forallb (fun c => negb (is_space c)) s = true -> lstrip s = s.
Proof.
  destruct s as [|c s]; simpl; [reflexivity|].
  intros H. apply andb_true_iff in H as [Hc _].
  destruct (is_space c); [discriminate | reflexivity].
Qed.

Lemma rstrip_spaces (y trail : bytes) :
  forallb (fun c => negb (is_space c)) y = true ->
  forallb is_space trail = true ->
  rstrip (y ++ trail) = y.
Proof.
  intros Hy Htrail. unfold rstrip.
  rewrite rev_app_distr, lstrip_spaces_app by (apply forallb_rev, Htrail).
  rewrite lstrip_no_space by (apply forallb_rev, Hy).
  apply rev_involutive.
Qed.

Lemma grouped_digits_all (ds : bytes) :
  forallb is_digit ds = true -> ds <> [] -> grouped_digits ds = true.
Proof.
  induction ds as [|d ds IH]; intros H Hne; [congruence|].
  simpl in H. apply andb_true_iff in H as [Hd Hds].
  cbn [grouped_digits]. rewrite Hd. cbn [andb].
  destruct ds as [|c ds']; [reflexivity|].
  assert (Hc : is_digit c = true)
    by (simpl in Hds; apply andb_true_iff in Hds as [Hc _]; exact Hc).
  destruct (is_underscore c) eqn:Hu.
  - destruct (underscore_not_space c Hu) as [_ Hnd]. congruence.
  - apply IH; [assumption | discriminate].
Qed.

Lemma digit_class (c : byte) :
  is_digit c = true ->
  is_space c = false /\ is_underscore c = false /\ Byte.eqb c x00 = false.
Proof. by_byte_cases c. Qed.

Lemma underscore_class (c : byte) :
  is_underscore c = true ->
  is_space c = false /\ Byte.eqb c x00 = false.
Proof. by_byte_cases c. Qed.

Lemma space_not_nul (c : byte) :
  is_space c = true -> Byte.eqb c x00 = false.
Proof. by_byte_cases c. Qed.

Lemma forallb_weaken {A} (p q : A -> bool) (s : list A) :
  (forall c, p c = true -> q c = true) ->
  forallb p s = true -> forallb q s = true.
Proof.
  intros Hpq. rewrite !forallb_forall. intros H c Hc. apply Hpq, H, Hc.
Qed.

(** The digits that [int_digits] reads after a digit, with the text that
    follows them. *)
Lemma int_digits_sound (k : nat) :
  forall (s : bytes) (acc : Z) (n : nat) (v : Z) (n' : nat) (rest : bytes),
    (length s <= k)%nat ->
    int_digits acc n s = Some (v, n', rest) ->
    exists body,
      s = body ++ rest
      /\ forallb (fun c => negb (is_space c) && negb (Byte.eqb c x00)) body
         = true
      /\ forall d, is_digit d = true -> grouped_digits (d :: body) = true.
Proof.
  assert (Hnil : forall rest : bytes,
    exists body : bytes,
      rest = body ++ rest
      /\ forallb (fun c => negb (is_space c) && negb (Byte.eqb c x00)) body
         = true
      /\ forall d, is_digit d = true -> grouped_digits (d :: body) = true).
  { intros rest. exists []. split; [reflexivity|]. split; [reflexivity|].
    intros d Hd. simpl. rewrite Hd. reflexivity. }
  induction k as [|k IH]; intros s acc n v n' rest Hlen H.
  - destruct s; [|simpl in Hlen; lia].
    simpl in H. injection H as <- <- <-. apply Hnil.
  - destruct s as [|c s'].
    + simpl in H. injection H as <- <- <-. apply Hnil.
    + cbn [int_digits] in H. destruct (is_digit c) eqn:Hc.
      * apply IH in H as [body [-> [Hns Hg]]]; [|simpl in Hlen; lia].
        destruct (digit_class c Hc) as [Hsp [Hus Hnul]].
        exists (c :: body). split; [reflexivity|]. split.
        -- simpl. rewrite Hsp, Hnul, Hns. reflexivity.
        -- intros d Hd. cbn [grouped_digits]. rewrite Hd, Hus. cbn [andb].
           apply (Hg c Hc).
      * destruct (is_underscore c) eqn:Hu.
        -- destruct s' as [|d' s'']; [discriminate|].
           destruct (is_digit d') eqn:Hd'; [|discriminate].
           apply IH in H as [body [-> [Hns Hg]]]; [|simpl in Hlen; lia].
           destruct (underscore_class c Hu) as [Hsp Hnul].
           destruct (digit_class d' Hd') as [Hsp' [_ Hnul']].
           exists (c :: d' :: body). split; [reflexivity|]. split.
           ++ simpl. rewrite Hsp, Hnul, Hsp', Hnul', Hns. reflexivity.
           ++ intros d Hd. cbn [grouped_digits]. rewrite Hd, Hu. cbn [andb].
              apply (Hg d' Hd').
        -- injection H as <- <- <-. apply Hnil.
Qed.

(** The form of a text that [int()] accepts: after the leading white space,
    a sign and digits, without white space or NUL, then white space. *)
Lemma py_int_accepted_form (max_str_digits : nat) (tok : bytes) (z : Z) :
  py_int max_str_digits tok = inr z ->
  exists y rest,
    lstrip tok = y ++ rest
    /\ forallb is_space rest = true
    /\ forallb (fun c => negb (is_space c) && negb (Byte.eqb c x00)) y = true
    /\ (let '(_, ds) := parse_sign y in grouped_digits ds) = true.
Proof.
  unfold py_int, raise, ret.
  destruct (parse_sign (lstrip tok)) as [neg ds] eqn:Hsign.
  destruct ds as [|d ds']; [discriminate|].
  destruct (is_digit d) eqn:Hd; [|discriminate].
  destruct (int_digits (digit_val d) 1 ds') as [[[v n] rest]|] eqn:Hdig;
    [|discriminate].
  destruct (exceeds_limit max_str_digits n); [discriminate|].
  destruct (lstrip rest) eqn:Hrest; [|discriminate].
  intros _. apply lstrip_nil in Hrest.
  apply (int_digits_sound (length ds')) in Hdig
    as [body [-> [Hns Hg]]]; [|lia].
  destruct (digit_class d Hd) as [Hsp [_ Hnul]].
  destruct (digit_not_sign d Hd) as [Hm Hp].
  destruct (parse_sign_cases _ _ _ Hsign) as [[Heq _] | [sg [Heq Hsg]]].
  - exists (d :: body), rest. split; [exact Heq|]. split; [assumption|].
    split.
    + simpl. rewrite Hsp, Hnul, Hns. reflexivity.
    + unfold parse_sign. rewrite Hm, Hp. apply Hg, Hd.
  - exists (sign_text sg ++ d :: body), rest. split.
    + rewrite Heq, <- app_assoc. reflexivity.
    + split; [assumption|]. split.
      * rewrite forallb_app. simpl. rewrite Hsp, Hnul, Hns.
        destruct sg; reflexivity.
      * rewrite parse_sign_text by (simpl; unfold not_sign; rewrite Hm, Hp;
                                    reflexivity).
        apply Hg, Hd.
Qed.

(** [int()] accepts nothing but the relaxed literals: white space, an
    optional sign, digits with single underscores between them, white
    space. *)
Lemma py_int_accepts_relaxed (max_str_digits : nat) (tok : bytes) (z : Z) :
  py_int max_str_digits tok = inr z -> relaxed_decimal_literal tok = true.
Proof.
  intros H. apply py_int_accepted_form in H as [y [rest [Hy [Hrest [Hns Hg]]]]].
  unfold relaxed_decimal_literal, strip. rewrite Hy.
  rewrite rstrip_spaces; [exact Hg | | assumption].
  eapply forallb_weaken; [|exact Hns].
  intros c Hc. apply andb_true_iff in Hc as [Hc _]. exact Hc.
Qed.

Lemma lstrip_nul_no_nul (s : bytes) :
  forallb (fun c => negb (Byte.eqb c x00)) s = true -> lstrip_nul s = s.
Proof.
  destruct s as [|c s]; simpl; [reflexivity|].
  intros H. apply andb_true_iff in H as [Hc _].
  destruct (Byte.eqb c x00); [discriminate | reflexivity].
Qed.

Lemma rstrip_nul_no_nul (s : bytes) :
  forallb (fun c => negb (Byte.eqb c x00)) s = true -> rstrip_nul s = s.
Proof.
  intros H. unfold rstrip_nul.
  rewrite lstrip_nul_no_nul by (apply forallb_rev, H).
  apply rev_involutive.
Qed.

(** A text that [int()] accepts has no NUL byte, so it is the same however
    it reaches [int()]. *)
Lemma py_int_accepted_read (max_str_digits : nat) (tok : bytes) (z : Z)
      (p : token_passing) :
  py_int max_str_digits tok = inr z -> read_token p tok = tok.
Proof.
  intros H. destruct p; [reflexivity|]. cbn [read_token].
  apply rstrip_nul_no_nul.
  apply py_int_accepted_form in H as [y [rest [Hy [Hrest [Hns _]]]]].
  destruct (lstrip_split tok) as [lead [Htok Hlead]].
  rewrite Htok, Hy, !forallb_app.
  apply andb_true_iff. split; [|apply andb_true_iff; split].
  - apply (forallb_weaken is_space); [|assumption].
    intros c Hc. rewrite (space_not_nul c Hc). reflexivity.
  - eapply forallb_weaken; [|exact Hns].
    intros c Hc. apply andb_true_iff in Hc as [_ Hc]. exact Hc.
  - apply (forallb_weaken is_space); [|assumption].
    intros c Hc. rewrite (space_not_nul c Hc). reflexivity.
Qed.

(** The decimal integer literals of the specification are relaxed
    literals. *)
Lemma relaxed_of_spec_decimal (tok : bytes) (z : Z) :
  spec_decimal_value tok = Some z -> relaxed_decimal_literal tok = true.
Proof.
  unfold spec_decimal_value.
  destruct (parse_sign tok) as [neg ds] eqn:Hsign.
  destruct ds as [|d ds']; [discriminate|].
  destruct (forallb is_digit (d :: ds')) eqn:Hds; [|discriminate].
  intros _.
  assert (Hplain : forallb plain tok = true).
  { destruct (parse_sign_cases _ _ _ Hsign) as [[-> _] | [sg [-> _]]].
    - apply digits_plain, Hds.
    - rewrite forallb_app, sign_text_plain, digits_plain by assumption.
      reflexivity. }
  unfold relaxed_decimal_literal.
  rewrite (strip_plain tok Hplain), Hsign.
  apply grouped_digits_all; [assumption | discriminate].
Qed.

(** What [int()] can raise. *)
Lemma py_int_inl (max_str_digits : nat) (x : bytes) (e : exception) :
  py_int max_str_digits x = inl e ->
  e = ValueError_int_literal x
  \/ exists n, e = ValueError_int_max_str_digits n
               /\ exceeds_limit max_str_digits n = true.
Proof.
  unfold py_int, raise, ret.
  destruct (parse_sign (lstrip x)) as [neg ds].
  destruct ds as [|d ds']; [intros [= <-]; auto|].
  destruct (is_digit d); [|intros [= <-]; auto].
  destruct (int_digits (digit_val d) 1 ds') as [[[v n] rest]|];
    [|intros [= <-]; auto].
  destruct (exceeds_limit max_str_digits n) eqn:Hlim.
  - intros [= <-]. right. exists n. auto.
  - destruct (lstrip rest); [discriminate | intros [= <-]; auto].
Qed.

(** *** Setting one element *)

Lemma exceeds_limit_off (n : nat) : exceeds_limit 0 n = false.
Proof. unfold exceeds_limit. destruct (640 <? n)%nat; reflexivity. Qed.

(** A text that [int()] refuses is refused by [setitem] with the exception
    of [int()], whatever the conversion. *)
Lemma int_setitem_refused (np : numpy) (max_str_digits : nat) (dt : dtype)
      (tok : bytes) (e : exception) :
  py_int max_str_digits (read_token (passing np) tok) = inl e ->
  int_setitem np max_str_digits dt tok = inl e.
Proof.
  intros H. unfold int_setitem, MyPyLong_AsLong. cbv zeta. rewrite H.
  destruct (conversion np); reflexivity.
Qed.

(** A value in the range of the dtype is stored as it is by every NumPy. *)
Lemma int_setitem_in_range_value (np : numpy) (max_str_digits : nat)
      (dt : dtype) (tok : bytes) (z : Z) :
  py_int max_str_digits tok = inr z ->
  in_range dt z = true ->
  int_setitem np max_str_digits dt tok = inr z.
Proof.
  intros H Hin. unfold int_setitem, MyPyLong_AsLong. cbv zeta.
  rewrite (py_int_accepted_read _ _ _ (passing np) H), H.
  destruct (conversion np); cbn [bind].
  - rewrite (in_range_fits_c_long dt z Hin). cbn [bind ret].
    rewrite (wrap_in_range dt z Hin). reflexivity.
  - rewrite Hin. reflexivity.
Qed.

(** Under the conversion of NumPy 1.x, a value that fits a C [long] is
    stored as its cast to the element type. *)
Lemma int_setitem_legacy (np : numpy) (max_str_digits : nat) (dt : dtype)
      (tok : bytes) (z : Z) :
  conversion np = LegacyCast ->
  py_int max_str_digits tok = inr z ->
  fits_c_long z = true ->
  int_setitem np max_str_digits dt tok = inr (wrap (bits dt) z).
Proof.
  intros Hconv H Hfit. unfold int_setitem, MyPyLong_AsLong. cbv zeta.
  rewrite (py_int_accepted_read _ _ _ (passing np) H), H, Hconv.
  cbn [bind]. rewrite Hfit. reflexivity.
Qed.

(** A value that the conversion does not take raises [OverflowError]. *)
Lemma int_setitem_overflow (np : numpy) (max_str_digits : nat) (dt : dtype)
      (tok : bytes) (z : Z) :
  py_int max_str_digits tok = inr z ->
  match conversion np with
  | LegacyCast => fits_c_long z = false
  | BoundsChecked => in_range dt z = false
  end ->
  int_setitem np max_str_digits dt tok = inl (OverflowError_int z).
Proof.
  intros H Hout. unfold int_setitem, MyPyLong_AsLong. cbv zeta.
  rewrite (py_int_accepted_read _ _ _ (passing np) H), H.
  destruct (conversion np); cbn [bind]; rewrite Hout; reflexivity.
Qed.

(** What setting one token can raise: the exception of [int()], or an
    [OverflowError] for a value that the conversion does not take. *)
Lemma int_setitem_inl (np : numpy) (max_str_digits : nat) (dt : dtype)
      (tok : bytes) (e : exception) :
  int_setitem np max_str_digits dt tok = inl e ->
  py_int max_str_digits (read_token (passing np) tok) = inl e
  \/ exists z, py_int max_str_digits (read_token (passing np) tok) = inr z
               /\ e = OverflowError_int z
               /\ match conversion np with
                  | LegacyCast => fits_c_long z = false
                  | BoundsChecked => in_range dt z = false
                  end.
Proof.
  unfold int_setitem, MyPyLong_AsLong, raise, ret. cbv zeta.
  destruct (py_int max_str_digits (read_token (passing np) tok)) as [e'|z].
  - destruct (conversion np); cbn [bind]; intros [= <-]; auto.
  - destruct (conversion np); cbn [bind]; intros H; right; exists z.
    + destruct (fits_c_long z); cbn [bind] in H; [discriminate|].
      injection H as <-. auto.
    + destruct (in_range dt z); [discriminate|].
      injection H as <-. auto.
Qed.

(** A stored element is in the range of the dtype. *)
Lemma int_setitem_in_range (np : numpy) (max_str_digits : nat) (dt : dtype)
      (tok : bytes) (x : Z) :
  int_setitem np max_str_digits dt tok = inr x -> in_range dt x = true.
Proof.
  unfold int_setitem, ret, raise. cbv zeta. destruct (conversion np).
  - destruct (MyPyLong_AsLong max_str_digits _) as [e|z]; [discriminate|].
    intros [= <-]. apply wrap_spec.
  - destruct (py_int max_str_digits _) as [e|z]; [discriminate|].
    cbn [bind]. destruct (in_range dt z) eqn:Hin; [|discriminate].
    intros [= <-]. exact Hin.
Qed.

(** *** The array of the tokens *)

Lemma np_array_values (np : numpy) (max_str_digits : nat) (dt : dtype)
      (toks : list bytes) (zs : list Z) :
  Forall2 (fun tok z => int_setitem np max_str_digits dt tok = inr z)
          toks zs ->
  np_array np max_str_digits toks dt = inr zs.
Proof.
  induction 1 as [|tok z toks zs Htok _ IH]; simpl.
  - reflexivity.
  - rewrite Htok, IH. reflexivity.
Qed.

(** The exception of [np_array] is that of the first token that fails. *)
Lemma np_array_first_failure (np : numpy) (max_str_digits : nat)
      (dt : dtype) (pre : list bytes) (tok : bytes) (post : list bytes)
      (e : exception) :
  (forall t, In t pre ->
             exists z, int_setitem np max_str_digits dt t = inr z) ->
  int_setitem np max_str_digits dt tok = inl e ->
  np_array np max_str_digits (pre ++ tok :: post) dt = inl e.
Proof.
  induction pre as [|t pre IH]; intros Hpre Htok; simpl.
  - rewrite Htok. reflexivity.
  - destruct (Hpre t (or_introl eq_refl)) as [z Hz]. rewrite Hz. simpl.
    rewrite IH; [reflexivity | | assumption].
    intros t' Ht'. apply Hpre. right. assumption.
Qed.

(** A list with a failing token splits at its first failing token. *)
Lemma first_failure (np : numpy) (max_str_digits : nat) (dt : dtype)
      (toks : list bytes) :
  (exists tok e, In tok toks
                 /\ int_setitem np max_str_digits dt tok = inl e) ->
  exists pre tok post e,
    toks = pre ++ tok :: post
    /\ (forall t, In t pre ->
                  exists z, int_setitem np max_str_digits dt t = inr z)
    /\ int_setitem np max_str_digits dt tok = inl e.
Proof.
  induction toks as [|t toks IH]; intros [tok [e [Hin He]]].
  - contradiction.
  - destruct (int_setitem np max_str_digits dt t) as [e'|z] eqn:Ht.
    + exists [], t, toks, e'. simpl. split; [reflexivity|].
      split; [contradiction | assumption].
    + destruct Hin as [-> | Hin]; [congruence|].
      destruct IH as [pre [tok' [post [e' [Heq [Hpre Htok']]]]]].
      { exists tok, e. auto. }
      exists (t :: pre), tok', post, e'. subst toks. simpl.
      split; [reflexivity|]. split; [|assumption].
      intros t' [<- | Ht']; [exists z; assumption | apply Hpre, Ht'].
Qed.

(** A text that is no relaxed literal is refused by [int()], with a
    [ValueError]. *)
Lemma py_int_refuses (max_str_digits : nat) (tok : bytes) :
  relaxed_decimal_literal tok = false ->
  exists e,
    py_int max_str_digits tok = inl e
    /\ is_ValueError e = true
    /\ (e = ValueError_int_literal tok
        \/ exists n, e = ValueError_int_max_str_digits n
                     /\ exceeds_limit max_str_digits n = true).
Proof.
  intros Hbad.
  destruct (py_int max_str_digits tok) as [e|z] eqn:Hint.
  - exists e. split; [reflexivity|].
    destruct (py_int_inl _ _ _ Hint) as [-> | [n [-> Hn]]].
    + split; [reflexivity | left; reflexivity].
    + split; [reflexivity | right; exists n; auto].
  - apply py_int_accepts_relaxed in Hint. congruence.
Qed.

(** A token that is no relaxed literal even without its trailing NUL bytes
    is refused however it reaches [int()]. *)
Lemma read_token_refused (p : token_passing) (max_str_digits : nat)
      (tok : bytes) :
  relaxed_decimal_literal (rstrip_nul tok) = false ->
  exists e,
    py_int max_str_digits (read_token p tok) = inl e
    /\ is_ValueError e = true
    /\ (e = ValueError_int_literal (read_token p tok)
        \/ exists n, e = ValueError_int_max_str_digits n
                     /\ exceeds_limit max_str_digits n = true).
Proof.
  intros Hbad. destruct p; cbn [read_token].
  - destruct (py_int max_str_digits tok) as [e|z] eqn:Hint.
    + exists e. split; [reflexivity|].
      destruct (py_int_inl _ _ _ Hint) as [-> | [n [-> Hn]]].
      * split; [reflexivity | left; reflexivity].
      * split; [reflexivity | right; exists n; auto].
    + pose proof (py_int_accepted_read _ _ _ AsStringItem Hint) as Hread.
      cbn [read_token] in Hread. rewrite Hread in Hbad.
      apply py_int_accepts_relaxed in Hint. congruence.
  - apply py_int_refuses. assumption.
Qed.

(** A decimal integer literal of the specification is a relaxed literal and
    has no NUL byte. *)
Lemma spec_decimal_relaxed (tok : bytes) (z : Z) :
  spec_decimal_value tok = Some z ->
  relaxed_decimal_literal tok = true /\ rstrip_nul tok = tok.
Proof.
  intros H. split; [apply (relaxed_of_spec_decimal tok z H)|].
  apply (py_int_accepted_read 0 tok z AsStringItem).
  apply py_int_spec_decimal; [assumption | apply exceeds_limit_off].
Qed.

(** C6, as stated, fails. The tokens ["1_0"] and [" 2"] are not decimal
    integer literals of the specification (an underscore, white space), yet
    ["1_0, 2"] decodes to [10; 2]: [int()] drops surrounding white space and
    allows single underscores between digits. And the exception for the
    refused token ["x"] is the same whether it is the first token or the
    second: it carries the text, not the index. *)
Lemma parse_ascii_seq_space_accepted :
  bytes_split is_comma (b_ "1_0, 2") = [b_ "1_0"; b_ " 2"]
  /\ spec_decimal_value (b_ "1_0") = None
  /\ spec_decimal_value (b_ " 2") = None
  /\ parse_ascii_seq (mkNumpy AsObject LegacyCast) 4300 (b_ "1_0, 2") int8
     = inr [10; 2]
  /\ parse_ascii_seq (mkNumpy AsStringItem BoundsChecked) 4300
       (b_ "1_0, 2") int8
     = inr [10; 2]
  /\ parse_ascii_seq (mkNumpy AsObject LegacyCast) 4300 (b_ "x,1") int8
     = parse_ascii_seq (mkNumpy AsObject LegacyCast) 4300 (b_ "1,x") int8
  /\ parse_ascii_seq (mkNumpy AsStringItem BoundsChecked) 4300 (b_ "x,1") int8
     = parse_ascii_seq (mkNumpy AsStringItem BoundsChecked) 4300 (b_ "1,x")
         int8.
Proof. repeat split; reflexivity. Qed.

(** C6, amended: a token that is not a decimal integer literal even when
    the white space around it is dropped and single underscores between its
    digits are allowed (trailing NUL bytes, which a NumPy that reads the
    token through a string item drops, being left aside) makes the call
    fail, with every NumPy: it raises and returns no value. When the tokens
    before it are converted, the exception is the [ValueError] of [int()]
    for that token, which carries the text that [int()] was given (or, for a
    run of digits longer than the interpreter allows, their number) and not
    the index of the token. Every decimal integer literal of the
    specification is such a relaxed literal. On ["1,x"] the exception is
    the [ValueError] for ["x"]. *)
Theorem parse_ascii_seq_malformed_token :
  (forall (np : numpy) (max_str_digits : nat) (data : bytes) (dt : dtype),
     (exists tok, In tok (bytes_split is_comma data)
                  /\ relaxed_decimal_literal (rstrip_nul tok) = false) ->
     exists e, parse_ascii_seq np max_str_digits data dt = inl e)
  /\ (forall (np : numpy) (max_str_digits : nat) (data : bytes) (dt : dtype)
             (pre : list bytes) (tok : bytes) (post : list bytes),
        bytes_split is_comma data = pre ++ tok :: post ->
        (forall t, In t pre ->
                   exists z, int_setitem np max_str_digits dt t = inr z) ->
        relaxed_decimal_literal (rstrip_nul tok) = false ->
        exists e,
          parse_ascii_seq np max_str_digits data dt = inl e
          /\ is_ValueError e = true
          /\ (e = ValueError_int_literal (read_token (passing np) tok)
              \/ exists n, e = ValueError_int_max_str_digits n
                           /\ exceeds_limit max_str_digits n = true))
  /\ (forall (tok : bytes) (z : Z),
        spec_decimal_value tok = Some z ->
        relaxed_decimal_literal (rstrip_nul tok) = true)
  /\ (forall (np : numpy) (max_str_digits : nat) (dt : dtype),
        parse_ascii_seq np max_str_digits (b_ "1,x") dt
        = inl (ValueError_int_literal (b_ "x"))).
Proof.
  split; [|split; [|split]].
  - intros np lim data dt [tok [Hin Hbad]].
    destruct (read_token_refused (passing np) lim tok Hbad) as [e0 [He0 _]].
    destruct (first_failure np lim dt (bytes_split is_comma data))
      as [pre [t [post [e [Heq [Hpre Ht]]]]]].
    { exists tok, e0.
      split; [assumption | apply int_setitem_refused, He0]. }
    exists e. unfold parse_ascii_seq. rewrite Heq.
    apply np_array_first_failure; assumption.
  - intros np lim data dt pre tok post Heq Hpre Hbad.
    destruct (read_token_refused (passing np) lim tok Hbad)
      as [e [He [Hv Hkind]]].
    exists e. split; [|split; assumption].
    unfold parse_ascii_seq. rewrite Heq.
    apply np_array_first_failure; [assumption|].
    apply int_setitem_refused, He.
  - intros tok z H. destruct (spec_decimal_relaxed tok z H) as [Hrel ->].
    exact Hrel.
  - intros [[|] [|]] lim dt; destruct dt; reflexivity.
Qed.

Lemma parse_ascii_seq_malformed_token_witness :
  exists e,
    parse_ascii_seq (mkNumpy AsStringItem BoundsChecked) 4300
      (b_ "1,2x,3") int8 = inl e
    /\ is_ValueError e = true
    /\ (e = ValueError_int_literal (b_ "2x")
        \/ exists n, e = ValueError_int_max_str_digits n
                     /\ exceeds_limit 4300 n = true).
Proof.
  apply (proj1 (proj2 parse_ascii_seq_malformed_token)
           (mkNumpy AsStringItem BoundsChecked) 4300%nat (b_ "1,2x,3") int8
           [b_ "1"] (b_ "2x") [b_ "3"]).
  - reflexivity.
  - intros t [<- | []]. exists 1. reflexivity.
  - reflexivity.
Defined.

(** C7, as stated, fails. ["9223372036854775808"] is a decimal integer
    literal whose value, [2 ^ 63], is outside the range of an 8-bit element,
    and the call raises [OverflowError] under either conversion instead of
    wrapping; under the conversion of NumPy 2 so does ["300"]. *)
Lemma parse_ascii_seq_overflow_raises :
  spec_decimal_value (b_ "9223372036854775808") = Some (2 ^ 63)
  /\ in_range int8 (2 ^ 63) = false
  /\ parse_ascii_seq (mkNumpy AsObject LegacyCast) 4300
       (b_ "9223372036854775808") int8
     = inl (OverflowError_int (2 ^ 63))
  /\ parse_ascii_seq (mkNumpy AsStringItem LegacyCast) 4300
       (b_ "9223372036854775808") int8
     = inl (OverflowError_int (2 ^ 63))
  /\ parse_ascii_seq (mkNumpy AsStringItem BoundsChecked) 4300
       (b_ "9223372036854775808") int8
     = inl (OverflowError_int (2 ^ 63))
  /\ spec_decimal_value (b_ "300") = Some 300
  /\ in_range int8 300 = false
  /\ parse_ascii_seq (mkNumpy AsStringItem BoundsChecked) 4300 (b_ "300")
       int8
     = inl (OverflowError_int 300)
  /\ parse_ascii_seq (mkNumpy AsObject BoundsChecked) 4300 (b_ "300") int8
     = inl (OverflowError_int 300).
Proof. repeat split; reflexivity. Qed.

(** C7, amended. Let every token be a decimal integer literal, not longer
    than the interpreter allows. When every value is in the range of the
    element type, the call returns the values as they are, with every
    NumPy; ["1,2"] at 8 bits gives [1; 2]. Under the conversion of NumPy
    1.x, values that fit a C [long] (64 bits) are cast to the element type:
    each becomes the value of that type congruent to it modulo [2 ^ bits],
    and the first value that does not fit a C [long] raises
    [OverflowError]. Under the conversion of NumPy 2 the first value outside
    the range of the element type raises [OverflowError]. *)
Theorem parse_ascii_seq_wraps :
  (forall (np : numpy) (max_str_digits : nat) (data : bytes) (dt : dtype)
          (zs : list Z),
     Forall2 (fun tok z =>
                spec_decimal_value tok = Some z
                /\ exceeds_limit max_str_digits (length tok) = false
                /\ in_range dt z = true)
             (bytes_split is_comma data) zs ->
     parse_ascii_seq np max_str_digits data dt = inr zs)
  /\ (forall (np : numpy) (max_str_digits : nat) (data : bytes) (dt : dtype)
             (zs : list Z),
        conversion np = LegacyCast ->
        Forall2 (fun tok z =>
                   spec_decimal_value tok = Some z
                   /\ exceeds_limit max_str_digits (length tok) = false
                   /\ fits_c_long z = true)
                (bytes_split is_comma data) zs ->
        parse_ascii_seq np max_str_digits data dt
        = inr (map (wrap (bits dt)) zs))
  /\ (forall (dt : dtype) (z : Z),
        in_range dt (wrap (bits dt) z) = true
        /\ (wrap (bits dt) z - z) mod 2 ^ bits dt = 0
        /\ (in_range dt z = true ->
            fits_c_long z = true /\ wrap (bits dt) z = z))
  /\ (forall (np : numpy) (max_str_digits : nat) (data : bytes) (dt : dtype)
             (pre : list bytes) (tok : bytes) (post : list bytes) (z : Z),
        bytes_split is_comma data = pre ++ tok :: post ->
        (forall t, In t pre ->
                   exists x, int_setitem np max_str_digits dt t = inr x) ->
        spec_decimal_value tok = Some z ->
        exceeds_limit max_str_digits (length tok) = false ->
        match conversion np with
        | LegacyCast => fits_c_long z = false
        | BoundsChecked => in_range dt z = false
        end ->
        parse_ascii_seq np max_str_digits data dt
        = inl (OverflowError_int z))
  /\ (forall (np : numpy) (max_str_digits : nat),
        parse_ascii_seq np max_str_digits (b_ "1,2") int8 = inr [1; 2]).
Proof.
  split; [|split; [|split; [|split]]].
  - intros np lim data dt zs Hall. unfold parse_ascii_seq.
    apply np_array_values.
    induction Hall as [|tok z toks zs' [Hval [Hlim Hin]] _ IH];
      constructor; [|assumption].
    apply int_setitem_in_range_value; [|assumption].
    apply py_int_spec_decimal; assumption.
  - intros np lim data dt zs Hconv Hall. unfold parse_ascii_seq.
    apply np_array_values.
    induction Hall as [|tok z toks zs' [Hval [Hlim Hfit]] _ IH];
      constructor; [|assumption].
    apply int_setitem_legacy; [assumption | | assumption].
    apply py_int_spec_decimal; assumption.
  - intros dt z. destruct (wrap_spec dt z) as [Hr Hc].
    split; [assumption|]. split; [assumption|]. intros Hin.
    split; [apply (in_range_fits_c_long dt) | apply wrap_in_range]; assumption.
  - intros np lim data dt pre tok post z Heq Hpre Hval Hlim Hout.
    unfold parse_ascii_seq. rewrite Heq.
    apply np_array_first_failure; [assumption|].
    apply int_setitem_overflow; [|assumption].
    apply py_int_spec_decimal; assumption.
  - intros [[|] [|]] lim; reflexivity.
Qed.

Lemma parse_ascii_seq_wraps_witness :
  parse_ascii_seq (mkNumpy AsStringItem BoundsChecked) 4300
    (b_ "100,-128,5") int8
  = inr [100; -128; 5]
  /\ parse_ascii_seq (mkNumpy AsObject LegacyCast) 4300 (b_ "300,-129,5")
       int8
     = inr [44; 127; 5]
  /\ parse_ascii_seq (mkNumpy AsStringItem BoundsChecked) 4300 (b_ "5,300")
       int8
     = inl (OverflowError_int 300).
Proof.
  split; [|split].
  - apply (proj1 parse_ascii_seq_wraps (mkNumpy AsStringItem BoundsChecked)
             4300%nat (b_ "100,-128,5") int8 [100; -128; 5]).
    repeat (apply Forall2_cons; [repeat split; vm_compute; reflexivity|]).
    apply Forall2_nil.
  - apply (proj1 (proj2 parse_ascii_seq_wraps) (mkNumpy AsObject LegacyCast)
             4300%nat (b_ "300,-129,5") int8 [300; -129; 5]).
    + reflexivity.
    + repeat (apply Forall2_cons; [repeat split; vm_compute; reflexivity|]).
      apply Forall2_nil.
  - apply (proj1 (proj2 (proj2 (proj2 parse_ascii_seq_wraps)))
             (mkNumpy AsStringItem BoundsChecked) 4300%nat (b_ "5,300") int8
             [b_ "5"] (b_ "300") [] 300).
    + reflexivity.
    + intros t [<- | []]. exists 5. reflexivity.
    + reflexivity.
    + reflexivity.
    + reflexivity.
Defined.
(** * Further properties *)

(** ** parse_ribinary_seq: writing, concatenation, single bytes *)

Lemma byte_val_of_Z (z : Z) : byte_val (byte_of_Z z) = z mod 256.
Proof.
  unfold byte_of_Z, byte_val.
  pose proof (Z.mod_pos_bound z 256 ltac:(lia)) as Hb.
  destruct (Byte.of_N (Z.to_N (z mod 256))) as [b|] eqn:H.
  - apply Byte.to_of_N in H. rewrite H. apply Z2N.id. lia.
  - apply Byte.of_N_None_iff in H. lia.
Qed.

Lemma be_bytes_length (w : nat) (u : Z) : length (be_bytes w u) = w.
Proof. induction w as [|w IH]; simpl; auto. Qed.

Lemma be_unsigned_bytes (w : nat) (u : Z) :
  be_unsigned (be_bytes w u) = u mod 256 ^ Z.of_nat w.
Proof.
  induction w as [|w IH].
  - simpl. rewrite Z.mod_1_r. reflexivity.
  - cbn [be_bytes be_unsigned].
    rewrite be_bytes_length, IH, byte_val_of_Z.
    rewrite Nat2Z.inj_succ, Z.pow_succ_r by lia.
    rewrite (Z.mul_comm 256).
    rewrite Z.rem_mul_r by lia. lia.
Qed.

(** Reading back what was written for a value in range gives the value. *)
Lemma getitem_be_bytes (dt : dtype) (x : Z) :
  in_range dt x = true ->
  getitem_be dt (be_bytes (itemsize dt) x) = x.
Proof.
  intros Hin. unfold getitem_be.
  rewrite be_unsigned_bytes, <- pow_bits.
  apply (wrap_in_range dt x Hin).
Qed.

Lemma firstn_skipn_app {A} (l r : list A) (w : nat) :
  length l = w -> firstn w (l ++ r) = l /\ skipn w (l ++ r) = r.
Proof.
  intros <-. split.
  - rewrite firstn_app, Nat.sub_diag, firstn_all. simpl. apply app_nil_r.
  - rewrite skipn_app, Nat.sub_diag, skipn_all. reflexivity.
Qed.

Lemma items_app (w k n : nat) (a b : bytes) :
  length a = (k * w)%nat ->
  items w (k + n) (a ++ b) = items w k a ++ items w n b.
Proof.
  revert a. induction k as [|k IH]; intros a Hlen.
  - destruct a; [reflexivity | discriminate].
  - cbn [Nat.add items app].
    assert (Ha : a = firstn w a ++ skipn w a)
      by (symmetry; apply firstn_skipn).
    assert (Hf : length (firstn w a) = w)
      by (rewrite length_firstn; simpl in Hlen; lia).
    rewrite Ha at 1 2. rewrite <- app_assoc.
    destruct (firstn_skipn_app (firstn w a) (skipn w a ++ b) w Hf)
      as [-> ->].
    rewrite IH by (rewrite length_skipn; simpl in Hlen; lia).
    reflexivity.
Qed.

Lemma items_written (dt : dtype) (xs : list Z) :
  items (itemsize dt) (length xs) (tobytes_be dt xs)
  = map (be_bytes (itemsize dt)) xs.
Proof.
  unfold tobytes_be. induction xs as [|x xs IH]; cbn [length items flat_map map].
  - reflexivity.
  - destruct (firstn_skipn_app (be_bytes (itemsize dt) x)
                (flat_map (be_bytes (itemsize dt)) xs) (itemsize dt)
                (be_bytes_length _ _)) as [-> ->].
    rewrite IH. reflexivity.
Qed.

Lemma tobytes_be_length (dt : dtype) (xs : list Z) :
  length (tobytes_be dt xs) = (length xs * itemsize dt)%nat.
Proof.
  unfold tobytes_be. induction xs as [|x xs IH]; simpl.
  - reflexivity.
  - rewrite length_app, be_bytes_length, IH. reflexivity.
Qed.

(** X1: a sequence of values in the range of the dtype, written as big-endian
    two's complement integers, decodes to the same sequence. *)
Theorem parse_ribinary_seq_of_written (dt : dtype) (xs : list Z) :
  Forall (fun x => in_range dt x = true) xs ->
  parse_ribinary_seq (tobytes_be dt xs) dt = inr xs.
Proof.
  intros Hall. pose proof (itemsize_pos dt) as Hw.
  unfold parse_ribinary_seq. rewrite frombuffer_be_ok.
  - rewrite tobytes_be_length, Nat.div_mul by lia.
    rewrite items_written, map_map. f_equal.
    induction Hall as [|x xs Hx _ IH]; simpl.
    + reflexivity.
    + rewrite (getitem_be_bytes dt x Hx), IH. reflexivity.
  - rewrite tobytes_be_length. apply Nat.Div0.mod_mul.
Qed.

Lemma parse_ribinary_seq_of_written_witness :
  parse_ribinary_seq (tobytes_be int16 [1797; -1855; -32768; 32767]) int16
  = inr [1797; -1855; -32768; 32767].
Proof.
  apply (parse_ribinary_seq_of_written int16 [1797; -1855; -32768; 32767]).
  repeat constructor.
Defined.

(** What a successful decoding is. *)
Lemma parse_ribinary_seq_inr (data : bytes) (dt : dtype) (xs : list Z) :
  parse_ribinary_seq data dt = inr xs ->
  (length data mod itemsize dt = 0)%nat
  /\ xs = map (getitem_be dt)
            (items (itemsize dt) (length data / itemsize dt) data).
Proof.
  unfold parse_ribinary_seq, frombuffer_be.
  destruct (length data mod itemsize dt =? 0)%nat eqn:Hmod; [|discriminate].
  apply Nat.eqb_eq in Hmod. intros [= <-]. auto.
Qed.

Lemma tobytes_be_decoded (data : bytes) (dt : dtype) (xs : list Z) :
  parse_ribinary_seq data dt = inr xs -> tobytes_be dt xs = data.
Proof.
  intros H. apply parse_ribinary_seq_inr in H as [Hmod ->].
  pose proof (whole_items dt data Hmod) as Hwhole.
  rewrite tobytes_be_items.
  - apply items_concat. assumption.
  - intros item Hin.
    apply (items_item_length _ (length data / itemsize dt) data);
      [lia | assumption].
Qed.

(** X2: decoding loses nothing: two buffers that decode to the same sequence
    at the same width are the same buffer. *)
Theorem parse_ribinary_seq_injective (data1 data2 : bytes) (dt : dtype)
        (xs : list Z) :
  parse_ribinary_seq data1 dt = inr xs ->
  parse_ribinary_seq data2 dt = inr xs ->
  data1 = data2.
Proof.
  intros H1 H2.
  rewrite <- (tobytes_be_decoded data1 dt xs H1).
  apply (tobytes_be_decoded data2 dt xs H2).
Qed.

Lemma parse_ribinary_seq_injective_witness :
  [x07; x05; xf8; xc1] = tobytes_be int16 [1797; -1855].
Proof.
  apply (parse_ribinary_seq_injective
           [x07; x05; xf8; xc1] (tobytes_be int16 [1797; -1855]) int16
           [1797; -1855]); reflexivity.
Defined.

(** X3: decoding composes with concatenation: after a buffer of whole items,
    the rest of the data is decoded on its own, and a failure of the rest is
    the failure of the whole. *)
Theorem parse_ribinary_seq_app (a b : bytes) (dt : dtype) (xs : list Z) :
  parse_ribinary_seq a dt = inr xs ->
  parse_ribinary_seq (a ++ b) dt =
  (ys <- parse_ribinary_seq b dt ;; ret (xs ++ ys)).
Proof.
  intros H. apply parse_ribinary_seq_inr in H as [Hmod ->].
  pose proof (itemsize_pos dt) as Hw.
  pose proof (whole_items dt a Hmod) as Hwhole.
  unfold parse_ribinary_seq, frombuffer_be.
  rewrite length_app, <- Hwhole at 1.
  rewrite (Nat.add_comm _ (length b)), Nat.Div0.mod_add.
  destruct (length b mod itemsize dt =? 0)%nat; [|reflexivity].
  cbn [bind ret]. rewrite <- map_app. do 2 f_equal.
  rewrite length_app. rewrite <- Hwhole at 1.
  rewrite (Nat.add_comm _ (length b)), Nat.div_add by lia.
  rewrite (Nat.add_comm (length b / itemsize dt)).
  apply items_app. symmetry. exact Hwhole.
Qed.

Lemma parse_ribinary_seq_app_witness :
  parse_ribinary_seq ([x07; x05] ++ [xf8; xc1; x00]) int16 =
  (ys <- parse_ribinary_seq [xf8; xc1; x00] int16 ;; ret ([1797] ++ ys)).
Proof.
  apply (parse_ribinary_seq_app [x07; x05] [xf8; xc1; x00] int16 [1797]).
  reflexivity.
Defined.

(** X4: with the default dtype, [int8], every buffer decodes: the result has
    one element for each byte, the byte read as a signed 8-bit integer. *)
Theorem parse_ribinary_seq_int8 (data : bytes) :
  parse_ribinary_seq data int8
  = inr (map (fun b => to_signed 8 (byte_val b)) data).
Proof.
  unfold parse_ribinary_seq, frombuffer_be. cbn [itemsize].
  rewrite Nat.mod_1_r, Nat.div_1_r. cbn [Nat.eqb]. unfold ret. f_equal.
  induction data as [|b data IH]; cbn [length items map firstn skipn].
  - reflexivity.
  - rewrite IH. f_equal.
    unfold getitem_be. cbn [be_unsigned length bits itemsize].
    f_equal. change (256 ^ Z.of_nat 0) with 1. lia.
Qed.

(** ** Fields of a delimited record *)

Lemma bytes_split_nonempty (sep : byte -> bool) (s : bytes) :
  bytes_split sep s <> [].
Proof.
  destruct s as [|c s]; simpl; [discriminate|].
  destruct (sep c); [discriminate|].
  destruct (bytes_split sep s); discriminate.
Qed.

(** One field more than there are separators. *)
Lemma bytes_split_length (sep : byte -> bool) (s : bytes) :
  length (bytes_split sep s) = S (length (filter sep s)).
Proof.
  induction s as [|c s IH]; simpl; [reflexivity|].
  destruct (sep c); simpl.
  - rewrite IH. reflexivity.
  - destruct (bytes_split sep s);
      [simpl in IH; discriminate | simpl in *; assumption].
Qed.

(** The fields on either side of a separator. *)
Lemma bytes_split_app (sep : byte -> bool) (a b : bytes) (c : byte) :
  sep c = true ->
  bytes_split sep (a ++ c :: b) = bytes_split sep a ++ bytes_split sep b.
Proof.
  intros Hc. induction a as [|x a IH]; cbn [app bytes_split].
  - rewrite Hc. reflexivity.
  - rewrite IH. destruct (sep x); [reflexivity|].
    pose proof (bytes_split_nonempty sep a) as Hne.
    destruct (bytes_split sep a); [congruence | reflexivity].
Qed.

(** ** parse_ascii_seq: composition, results, failures *)

Lemma np_array_app (np : numpy) (max_str_digits : nat)
      (dt : dtype) (t1 t2 : list bytes) :
  np_array np max_str_digits (t1 ++ t2) dt =
  (xs <- np_array np max_str_digits t1 dt ;;
   ys <- np_array np max_str_digits t2 dt ;;
   ret (xs ++ ys)).
Proof.
  induction t1 as [|tok t1 IH]; cbn [app np_array bind ret].
  - destruct (np_array np max_str_digits t2 dt); reflexivity.
  - destruct (int_setitem np max_str_digits dt tok) as [e|x];
      [reflexivity|].
    cbn [bind]. rewrite IH.
    destruct (np_array np max_str_digits t1 dt) as [e|xs]; [reflexivity|].
    cbn [bind].
    destruct (np_array np max_str_digits t2 dt); reflexivity.
Qed.

(** A returned array has one element for each token, the element stored for
    that token. *)
Lemma np_array_inr (np : numpy) (max_str_digits : nat)
      (dt : dtype) (toks : list bytes) (xs : list Z) :
  np_array np max_str_digits toks dt = inr xs ->
  Forall2 (fun tok x => int_setitem np max_str_digits dt tok = inr x)
          toks xs.
Proof.
  revert xs. induction toks as [|tok toks IH]; intros xs; cbn [np_array].
  - intros [= <-]. constructor.
  - destruct (int_setitem np max_str_digits dt tok) as [e|x] eqn:Hx;
      [discriminate|].
    cbn [bind].
    destruct (np_array np max_str_digits toks dt) as [e|xs'];
      [discriminate|].
    intros [= <-]. constructor; [assumption | apply IH; reflexivity].
Qed.

(** A raised exception is that of one of the tokens. *)
Lemma np_array_inl (np : numpy) (max_str_digits : nat)
      (dt : dtype) (toks : list bytes) (e : exception) :
  np_array np max_str_digits toks dt = inl e ->
  exists tok, In tok toks /\ int_setitem np max_str_digits dt tok = inl e.
Proof.
  induction toks as [|tok toks IH]; cbn [np_array].
  - discriminate.
  - destruct (int_setitem np max_str_digits dt tok) as [e'|x] eqn:Hx.
    + intros [= <-]. exists tok. split; [left; reflexivity | assumption].
    + cbn [bind].
      destruct (np_array np max_str_digits toks dt) as [e'|xs];
        [|discriminate].
      intros [= <-]. destruct IH as [t [Hin Ht]]; [reflexivity|].
      exists t. split; [right; assumption | assumption].
Qed.

(** X5: decoding composes with the comma: the values of [a], then the values
    of [b]; a failure in [a] is raised before [b] is looked at. *)
Theorem parse_ascii_seq_app (np : numpy) (max_str_digits : nat)
        (a b : bytes) (dt : dtype) :
  parse_ascii_seq np max_str_digits (a ++ x2c :: b) dt =
  (xs <- parse_ascii_seq np max_str_digits a dt ;;
   ys <- parse_ascii_seq np max_str_digits b dt ;;
   ret (xs ++ ys)).
Proof.
  unfold parse_ascii_seq.
  rewrite (bytes_split_app is_comma a b x2c) by reflexivity.
  apply np_array_app.
Qed.

(** X6: a returned sequence has one element more than the data has commas,
    and every element is in the range of the dtype. *)
Theorem parse_ascii_seq_result (np : numpy)
        (max_str_digits : nat) (data : bytes) (dt : dtype) (xs : list Z) :
  parse_ascii_seq np max_str_digits data dt = inr xs ->
  length xs = S (length (filter is_comma data))
  /\ Forall (fun x => in_range dt x = true) xs.
Proof.
  unfold parse_ascii_seq. intros H. apply np_array_inr in H.
  rewrite <- bytes_split_length. split.
  - symmetry. apply (Forall2_length H).
  - induction H as [|tok x toks xs' Hx _ IH]; constructor.
    + apply (int_setitem_in_range np max_str_digits dt tok). assumption.
    + assumption.
Qed.

Lemma parse_ascii_seq_result_witness :
  length [100; -128; 5] = S (length (filter is_comma (b_ "100,-128,5")))
  /\ Forall (fun x => in_range int8 x = true) [100; -128; 5].
Proof.
  apply (parse_ascii_seq_result (mkNumpy AsStringItem BoundsChecked) 4300
           (b_ "100,-128,5") int8 [100; -128; 5]).
  reflexivity.
Defined.

(** X7: the only exceptions are those of converting one of the tokens: a
    [ValueError] of [int()] for a token of the data that it refuses, which
    carries the text that [int()] was given, a [ValueError] for too many
    digits, or an [OverflowError] for the value of a token that the
    conversion does not take: under that of NumPy 1.x a value that does not
    fit a C [long], under that of NumPy 2 a value outside the range of the
    element type. *)
Theorem parse_ascii_seq_exceptions (np : numpy) (max_str_digits : nat)
        (data : bytes) (dt : dtype) (e : exception) :
  parse_ascii_seq np max_str_digits data dt = inl e ->
  exists tok,
    In tok (bytes_split is_comma data)
    /\ (e = ValueError_int_literal (read_token (passing np) tok)
        \/ (exists n, e = ValueError_int_max_str_digits n
                      /\ exceeds_limit max_str_digits n = true)
        \/ (exists z,
              py_int max_str_digits (read_token (passing np) tok) = inr z
              /\ e = OverflowError_int z
              /\ match conversion np with
                 | LegacyCast => fits_c_long z = false
                 | BoundsChecked => in_range dt z = false
                 end)).
Proof.
  unfold parse_ascii_seq. intros H.
  apply np_array_inl in H as [tok [Hin Htok]].
  exists tok. split; [assumption|].
  destruct (int_setitem_inl _ _ _ _ _ Htok) as [Hint | Hover].
  - destruct (py_int_inl _ _ _ Hint) as [-> | Hlim]; auto.
  - right. right. exact Hover.
Qed.

Lemma parse_ascii_seq_exceptions_witness :
  exists tok,
    In tok (bytes_split is_comma (b_ "7,128"))
    /\ (OverflowError_int 128 = ValueError_int_literal (rstrip_nul tok)
        \/ (exists n, OverflowError_int 128 = ValueError_int_max_str_digits n
                      /\ exceeds_limit 4300 n = true)
        \/ (exists z, py_int 4300 (rstrip_nul tok) = inr z
                      /\ OverflowError_int 128 = OverflowError_int z
                      /\ in_range int8 z = false)).
Proof.
  apply (parse_ascii_seq_exceptions (mkNumpy AsStringItem BoundsChecked) 4300
           (b_ "7,128") int8).
  reflexivity.
Defined.

Lemma int_setitem_empty (np : numpy) (max_str_digits : nat)
      (dt : dtype) :
  int_setitem np max_str_digits dt [] = inl (ValueError_int_literal []).
Proof. destruct np as [[|] [|]]; reflexivity. Qed.

Lemma np_array_empty_token (np : numpy) (max_str_digits : nat)
      (dt : dtype) (toks : list bytes) :
  In [] toks -> exists e, np_array np max_str_digits toks dt = inl e.
Proof.
  intros Hin.
  destruct (first_failure np max_str_digits dt toks)
    as [pre [t [post [e [-> [Hpre Ht]]]]]].
  { exists [], (ValueError_int_literal []). split; [assumption|].
    apply int_setitem_empty. }
  exists e. apply np_array_first_failure; assumption.
Qed.

(** X8: an empty token is refused: the empty buffer raises the [ValueError]
    of [int()] for the empty text, and data that begins or ends with a comma,
    or has two commas in a row, raises and returns no value. *)
Theorem parse_ascii_seq_empty_token (np : numpy)
        (max_str_digits : nat) (data : bytes) (dt : dtype) :
  (data = [] -> parse_ascii_seq np max_str_digits data dt
                = inl (ValueError_int_literal []))
  /\ ((exists b, data = x2c :: b)
      \/ (exists a, data = a ++ [x2c])
      \/ (exists a b, data = a ++ x2c :: x2c :: b) ->
      exists e, parse_ascii_seq np max_str_digits data dt = inl e).
Proof.
  split.
  - intros ->. destruct np as [[|] [|]]; reflexivity.
  - intros H. unfold parse_ascii_seq. apply np_array_empty_token.
    destruct H as [[b ->] | [[a ->] | [a [b ->]]]].
    + simpl. left. reflexivity.
    + rewrite (bytes_split_app is_comma a [] x2c) by reflexivity.
      apply in_or_app. right. simpl. left. reflexivity.
    + rewrite (bytes_split_app is_comma a (x2c :: b) x2c) by reflexivity.
      apply in_or_app. right. simpl. left. reflexivity.
Qed.

Lemma parse_ascii_seq_empty_token_witness :
  exists e,
    parse_ascii_seq (mkNumpy AsStringItem BoundsChecked) 4300 (b_ "1,2,") int8
    = inl e.
Proof.
  apply (proj2 (parse_ascii_seq_empty_token
                  (mkNumpy AsStringItem BoundsChecked) 4300 (b_ "1,2,")
                  int8)).
  right. left. exists (b_ "1,2"). reflexivity.
Defined.

(** ** parse_ascii_seq: white space around the tokens *)

Lemma parse_sign_app (s r t : bytes) (neg : bool) :
  parse_sign s = (neg, r) -> r <> [] ->
  parse_sign (s ++ t) = (neg, r ++ t).
Proof.
  unfold parse_sign. destruct s as [|c s]; cbn [app].
  - intros [= <- <-] Hr. congruence.
  - destruct (is_minus c); [intros [= <- <-]; reflexivity|].
    destruct (is_plus c); intros [= <- <-]; reflexivity.
Qed.

Lemma int_digits_spaces (ds trail : bytes) (acc : Z) (n : nat) :
  forallb is_digit ds = true ->
  forallb is_space trail = true ->
  int_digits acc n (ds ++ trail) =
  Some (fold_left (fun a d => a * 10 + digit_val d) ds acc,
        (n + length ds)%nat, trail).
Proof.
  intros Hds Htrail. revert acc n.
  induction ds as [|d ds IH]; intros acc n; cbn [app length fold_left].
  - rewrite Nat.add_0_r. destruct trail as [|c trail]; [reflexivity|].
    simpl in Htrail. apply andb_true_iff in Htrail as [Hc _].
    destruct (space_not_digit c Hc) as [Hd Hu].
    cbn [int_digits]. rewrite Hd, Hu. reflexivity.
  - simpl in Hds. apply andb_true_iff in Hds as [Hd Hds].
    cbn [int_digits]. rewrite Hd, (IH Hds). do 3 f_equal. lia.
Qed.

(** [int()] reads a decimal integer literal of the specification through the
    white space around it. *)
Lemma py_int_padded (max_str_digits : nat) (lead lit trail : bytes) (z : Z) :
  forallb is_space lead = true ->
  forallb is_space trail = true ->
  spec_decimal_value lit = Some z ->
  exceeds_limit max_str_digits (length lit) = false ->
  py_int max_str_digits (lead ++ lit ++ trail) = inr z.
Proof.
  intros Hlead Htrail Hval Hlimit.
  unfold spec_decimal_value in Hval.
  destruct (parse_sign lit) as [neg ds] eqn:Hsign.
  destruct ds as [|d ds']; [discriminate|].
  destruct (forallb is_digit (d :: ds')) eqn:Hds; [|discriminate].
  injection Hval as <-.
  assert (Hplain : forallb plain lit = true /\
                   (length (d :: ds') <= length lit)%nat /\ lit <> []).
  { destruct (parse_sign_cases _ _ _ Hsign) as [[-> _] | [sg [-> _]]].
    - split; [apply digits_plain, Hds | split; [lia | discriminate]].
    - rewrite forallb_app, sign_text_plain, digits_plain by assumption.
      rewrite length_app. split; [reflexivity | split; [lia|]].
      destruct sg; discriminate. }
  destruct Hplain as [Hplain [Hlen Hne]].
  unfold py_int. rewrite lstrip_spaces_app by assumption.
  assert (Hstrip : lstrip (lit ++ trail) = lit ++ trail).
  { destruct lit as [|c lit]; [congruence|].
    simpl in Hplain. apply andb_true_iff in Hplain as [Hc _].
    unfold plain in Hc. cbn [app lstrip].
    destruct (is_space c); [discriminate | reflexivity]. }
  rewrite Hstrip.
  rewrite (parse_sign_app lit (d :: ds') trail neg Hsign) by discriminate.
  cbn [app]. simpl in Hds. apply andb_true_iff in Hds as [Hd Hds'].
  rewrite Hd, (int_digits_spaces ds' trail _ _ Hds' Htrail).
  change (1 + length ds')%nat with (length (d :: ds')).
  rewrite (exceeds_limit_mono max_str_digits _ _ Hlen Hlimit).
  rewrite (lstrip_spaces trail Htrail). reflexivity.
Qed.

(** X9: white space around a token is ignored, so the line end of a response
    and spaces after the commas do no harm. When every token is a decimal
    integer literal within white space, not longer than the interpreter
    allows: if the values are in the range of the element type, the call
    returns them, with every NumPy; under the conversion of NumPy 1.x,
    values that fit a C [long] are returned cast to the element type. *)
Theorem parse_ascii_seq_padded (np : numpy) (max_str_digits : nat)
        (data : bytes) (dt : dtype) (zs : list Z) :
  (Forall2 (fun tok z =>
              exists lead lit trail,
                tok = lead ++ lit ++ trail
                /\ forallb is_space lead = true
                /\ forallb is_space trail = true
                /\ spec_decimal_value lit = Some z
                /\ exceeds_limit max_str_digits (length lit) = false
                /\ in_range dt z = true)
           (bytes_split is_comma data) zs ->
   parse_ascii_seq np max_str_digits data dt = inr zs)
  /\ (conversion np = LegacyCast ->
      Forall2 (fun tok z =>
                 exists lead lit trail,
                   tok = lead ++ lit ++ trail
                   /\ forallb is_space lead = true
                   /\ forallb is_space trail = true
                   /\ spec_decimal_value lit = Some z
                   /\ exceeds_limit max_str_digits (length lit) = false
                   /\ fits_c_long z = true)
              (bytes_split is_comma data) zs ->
      parse_ascii_seq np max_str_digits data dt
      = inr (map (wrap (bits dt)) zs)).
Proof.
  split.
  - intros Hall. unfold parse_ascii_seq. apply np_array_values.
    induction Hall as [|tok z toks zs' Htok _ IH]; constructor;
      [|assumption].
    destruct Htok as [lead [lit [trail [-> [Hl [Ht [Hv [Hlim Hin]]]]]]]].
    apply int_setitem_in_range_value; [|assumption].
    apply py_int_padded; assumption.
  - intros Hconv Hall. unfold parse_ascii_seq. apply np_array_values.
    induction Hall as [|tok z toks zs' Htok _ IH]; constructor;
      [|assumption].
    destruct Htok as [lead [lit [trail [-> [Hl [Ht [Hv [Hlim Hfit]]]]]]]].
    apply int_setitem_legacy; [assumption | | assumption].
    apply py_int_padded; assumption.
Qed.

Lemma parse_ascii_seq_padded_witness :
  parse_ascii_seq (mkNumpy AsStringItem BoundsChecked) 4300
    (b_ "1, -2 ,100" ++ [x0d; x0a]) int8
  = inr [1; -2; 100].
Proof.
  apply (proj1 (parse_ascii_seq_padded (mkNumpy AsStringItem BoundsChecked)
                  4300 (b_ "1, -2 ,100" ++ [x0d; x0a]) int8 [1; -2; 100])).
  apply Forall2_cons.
  { exists [], (b_ "1"), []. repeat split; vm_compute; reflexivity. }
  apply Forall2_cons.
  { exists (b_ " "), (b_ "-2"), (b_ " ").
    repeat split; vm_compute; reflexivity. }
  apply Forall2_cons.
  { exists [], (b_ "100"), [x0d; x0a].
    repeat split; vm_compute; reflexivity. }
  apply Forall2_nil.
Defined.

(** ** parse_wfmoutpre: absence, failures, further fields, signs *)

Lemma parse_wfmoutpre_long_not_None (data : bytes) :
  (17 <= length (bytes_split is_semicolon data))%nat ->
  parse_wfmoutpre data <> inr None.
Proof.
  intros Hlen. rewrite parse_wfmoutpre_long by assumption.
  set (fields := bytes_split is_semicolon data).
  destruct (py_float (nth 10 fields [])); [discriminate|].
  destruct (py_float (nth 11 fields [])); [discriminate|].
  destruct (py_float (nth 14 fields [])); [discriminate|].
  destruct (py_float (nth 15 fields [])); [discriminate|].
  destruct (py_float (nth 16 fields [])); discriminate.
Qed.

(** X10: the result is [None] exactly when the record has fewer than 16
    semicolons; in particular the empty buffer gives [None]. *)
Theorem parse_wfmoutpre_None_iff (data : bytes) :
  parse_wfmoutpre data = inr None
  <-> (length (filter is_semicolon data) < 16)%nat.
Proof.
  pose proof (bytes_split_length is_semicolon data) as Hlen.
  split.
  - intros H.
    destruct (Nat.lt_ge_cases (length (filter is_semicolon data)) 16)
      as [Hlt | Hge]; [assumption|].
    exfalso. apply (parse_wfmoutpre_long_not_None data); [lia | assumption].
  - intros Hlt. unfold parse_wfmoutpre.
    assert (Hshort : (length (bytes_split is_semicolon data) <? 17)%nat = true)
      by (apply Nat.ltb_lt; lia).
    rewrite Hshort. reflexivity.
Qed.

Lemma py_float_inl (x : bytes) (e : exception) :
  py_float x = inl e ->
  e = ValueError_float_literal x /\ float_literal x = None.
Proof.
  unfold py_float. destruct (float_literal x); [discriminate|].
  intros [= <-]. auto.
Qed.

(** X11: the only exception is the [ValueError] of [float()], for the first
    of fields 10, 11, 14, 15, 16, in this order, that is not a float literal;
    it carries the text of that field. No index is ever out of range. *)
Theorem parse_wfmoutpre_exceptions (data : bytes) (e : exception) :
  parse_wfmoutpre data = inl e ->
  let fields := bytes_split is_semicolon data in
  (17 <= length fields)%nat
  /\ exists pre i post,
       [10; 11; 14; 15; 16]%nat = pre ++ i :: post
       /\ (forall j, In j pre ->
                     exists v, py_float (nth j fields []) = inr v)
       /\ float_literal (nth i fields []) = None
       /\ e = ValueError_float_literal (nth i fields []).
Proof.
  intros H fields.
  assert (Hlen : (17 <= length fields)%nat).
  { destruct (Nat.lt_ge_cases (length fields) 17) as [Hlt | Hge];
      [|assumption].
    unfold parse_wfmoutpre in H. fold fields in H.
    apply Nat.ltb_lt in Hlt. rewrite Hlt in H. discriminate. }
  split; [assumption|].
  rewrite parse_wfmoutpre_long in H by assumption. fold fields in H.
  destruct (py_float (nth 10 fields [])) as [e10|a] eqn:H10.
  { injection H as <-. apply py_float_inl in H10 as [-> Hnone].
    exists [], 10%nat, [11; 14; 15; 16]%nat.
    repeat split; try assumption. intros j []. }
  destruct (py_float (nth 11 fields [])) as [e11|b] eqn:H11.
  { injection H as <-. apply py_float_inl in H11 as [-> Hnone].
    exists [10]%nat, 11%nat, [14; 15; 16]%nat.
    repeat split; try assumption.
    intros j [<- | []]. eauto. }
  destruct (py_float (nth 14 fields [])) as [e14|c] eqn:H14.
  { injection H as <-. apply py_float_inl in H14 as [-> Hnone].
    exists [10; 11]%nat, 14%nat, [15; 16]%nat.
    repeat split; try assumption.
    intros j [<- | [<- | []]]; eauto. }
  destruct (py_float (nth 15 fields [])) as [e15|d] eqn:H15.
  { injection H as <-. apply py_float_inl in H15 as [-> Hnone].
    exists [10; 11; 14]%nat, 15%nat, [16]%nat.
    repeat split; try assumption.
    intros j [<- | [<- | [<- | []]]]; eauto. }
  destruct (py_float (nth 16 fields [])) as [e16|x] eqn:H16.
  { injection H as <-. apply py_float_inl in H16 as [-> Hnone].
    exists [10; 11; 14; 15]%nat, 16%nat, [].
    repeat split; try assumption.
    intros j [<- | [<- | [<- | [<- | []]]]]; eauto. }
  discriminate.
Qed.

Lemma parse_wfmoutpre_exceptions_witness :
  let fields :=
    bytes_split is_semicolon (b_ "0;1;2;3;4;5;6;7;8;9;1e-9;x;12;13;4e-3;0;0")
  in
  (17 <= length fields)%nat
  /\ exists pre i post,
       [10; 11; 14; 15; 16]%nat = pre ++ i :: post
       /\ (forall j, In j pre ->
                     exists v, py_float (nth j fields []) = inr v)
       /\ float_literal (nth i fields []) = None
       /\ ValueError_float_literal (b_ "x")
          = ValueError_float_literal (nth i fields []).
Proof.
  apply (parse_wfmoutpre_exceptions
           (b_ "0;1;2;3;4;5;6;7;8;9;1e-9;x;12;13;4e-3;0;0")
           (ValueError_float_literal (b_ "x"))).
  vm_compute. reflexivity.
Defined.

(** X12: fields after the seventeenth are not looked at: appending a
    semicolon and anything more to a record of at least 17 fields leaves the
    outcome as it is. *)
Theorem parse_wfmoutpre_appended (data more : bytes) :
  (17 <= length (bytes_split is_semicolon data))%nat ->
  parse_wfmoutpre (data ++ x3b :: more) = parse_wfmoutpre data.
Proof.
  intros Hlen.
  assert (Hsplit : bytes_split is_semicolon (data ++ x3b :: more)
                   = bytes_split is_semicolon data
                     ++ bytes_split is_semicolon more)
    by (apply bytes_split_app; reflexivity).
  rewrite (parse_wfmoutpre_long (data ++ x3b :: more))
    by (rewrite Hsplit, length_app; lia).
  rewrite (parse_wfmoutpre_long data) by assumption.
  rewrite Hsplit.
  rewrite !(app_nth1 (bytes_split is_semicolon data)) by lia.
  reflexivity.
Qed.

Lemma parse_wfmoutpre_appended_witness :
  parse_wfmoutpre (other_preamble ++ x3b :: b_ "TIME;ANALOG;0.0E+0")
  = parse_wfmoutpre other_preamble.
Proof.
  apply (parse_wfmoutpre_appended other_preamble (b_ "TIME;ANALOG;0.0E+0")).
  vm_compute. lia.
Defined.





Lemma to_lower_cases (c : byte) :
  c = to_lower c \/ c = byte_of_Z (byte_val (to_lower c) - 32).
Proof. destruct c; vm_compute; auto. Qed.

(** Splits on the case of the letter [c], known by [H : to_lower c = _]. *)
Ltac letter_case c H :=
  let E := fresh "E" in
  destruct (to_lower_cases c) as [E | E];
  rewrite H in E; vm_compute in E; subst c; clear H.

Ltac word_cases :=
  repeat match goal with
         | H : to_lower ?c = _ |- _ => letter_case c H
         end.

(** X14: [float()] also reads the words [inf], [infinity] and [nan], in any
    mix of upper and lower case and after an optional sign, so a field of
    the record can give a metadata value that is infinite or not a number,
    without any exception. *)
Theorem py_float_inf_nan (sg : sign) (w : bytes) :
  (map to_lower w = b_ "inf" \/ map to_lower w = b_ "infinity" ->
   py_float (sign_text sg ++ w) = inr (S754_infinity (sign_neg sg)))
  /\ (map to_lower w = b_ "nan" ->
      py_float (sign_text sg ++ w) = inr S754_nan).
Proof.
  split.
  - intros [H | H].
    + destruct w as [|c1 [|c2 [|c3 [|c4 w]]]]; try discriminate H.
      injection H as H1 H2 H3.
      word_cases; destruct sg; vm_compute; reflexivity.
    + destruct w as [|c1 [|c2 [|c3 [|c4 [|c5 [|c6 [|c7 [|c8 [|c9 w]]]]]]]]];
        try discriminate H.
      injection H as H1 H2 H3 H4 H5 H6 H7 H8.
      word_cases; destruct sg; vm_compute; reflexivity.
  - intros H.
    destruct w as [|c1 [|c2 [|c3 [|c4 w]]]]; try discriminate H.
    injection H as H1 H2 H3.
    word_cases; destruct sg; vm_compute; reflexivity.
Qed.

Lemma py_float_inf_nan_witness :
  py_float (sign_text Minus ++ b_ "Infinity") = inr (S754_infinity true).
Proof.
  apply (proj1 (py_float_inf_nan Minus (b_ "Infinity"))).
  right. reflexivity.
Defined.
